(** * Medusa: custom shipping options, sales channels and their admin hooks

    A shallow embedding of

    - [packages/medusa/src/services/custom-shipping-option.ts]
      (module [CustomShippingOptionService]),
    - the sales-channel service whose methods are not implemented yet
      (module [SalesChannelService]),
    - [packages/medusa-react/src/hooks/admin/sales-channels/mutations.ts]
      (module [SalesChannelHooks]).

    Promises are modelled by a state-and-exception monad over the database
    (services) or over the browser-side client state (hooks): an [async]
    function that rejects is a computation that ends in [Throw]. *)

From Stdlib Require Import ZArith.
From stdpp Require Import base strings gmap list fin_maps pretty.

Open Scope string_scope.
Open Scope list_scope.
Set Warnings "-register-all".

(* ===================================================================== *)
(** * JavaScript values and plain objects                                 *)
(* ===================================================================== *)

(** The JSON-like values that travel through the services.  A property
    that is [undefined] or absent is the [None] of an [option value]. *)
Inductive value : Type :=
| VNull
| VBool (b : bool)
| VNum (n : Z)
| VStr (s : string)
| VObj (fields : list (string * value)).

(** Structural equality on values, as the store compares column values. *)
Fixpoint value_eqb (a b : value) {struct a} : bool :=
  match a, b with
  | VNull, VNull => true
  | VBool x, VBool y => Bool.eqb x y
  | VNum x, VNum y => Z.eqb x y
  | VStr x, VStr y => String.eqb x y
  | VObj xs, VObj ys =>
      (fix fields_eqb (xs ys : list (string * value)) {struct xs} : bool :=
         match xs, ys with
         | [], [] => true
         | (k, v) :: xs', (k', v') :: ys' =>
             String.eqb k k' && value_eqb v v' && fields_eqb xs' ys'
         | _, _ => false
         end) xs ys
  | _, _ => false
  end.

(** A plain JavaScript object used as a record of named properties. *)
Abbreviation obj := (gmap string value).

(** An object literal [{ k1, k2, ... }] written with shorthand
    properties: a property whose variable is [undefined] is absent. *)
Fixpoint literal (props : list (string * option value)) : obj :=
  match props with
  | [] => ∅
  | (k, Some v) :: rest => <[k := v]> (literal rest)
  | (_, None) :: rest => literal rest
  end.

(* ===================================================================== *)
(** * Errors                                                              *)
(* ===================================================================== *)

(** Failures of the storage layer itself. *)
Inductive StorageError : Type :=
| ConstraintViolation (detail : string)
| ConnectionError (detail : string).

(** [MedusaError.Types]; the services below only ever use [NOT_FOUND]. *)
Inductive MedusaErrorType : Type :=
| NOT_FOUND
| INVALID_DATA
| DB_ERROR.

(** Everything a service method can reject with. *)
Inductive Thrown : Type :=
| MedusaError (type : MedusaErrorType) (message : string)
| JsError (message : string)
| StorageFailure (e : StorageError).

Inductive Result (A : Type) : Type :=
| Ok (a : A)
| Throw (e : Thrown).
Arguments Ok {A} a.
Arguments Throw {A} e.

(* ===================================================================== *)
(** * Data model                                                          *)
(* ===================================================================== *)

Module Models.

(** The [CustomShippingOption] entity: its columns and the two
    relations that a query can ask to be loaded. *)
Record CustomShippingOption : Type := {
  id : string;
  cart_id : option value;
  shipping_option_id : option value;
  price : option value;
  metadata : option value;
  cart : option value;
  shipping_option : option value;
}.

(** An entity instance that has not been saved yet: no [id]. *)
Record Draft : Type := {
  d_cart_id : option value;
  d_shipping_option_id : option value;
  d_price : option value;
  d_metadata : option value;
}.

End Models.

Abbreviation CustomShippingOption := Models.CustomShippingOption.
Abbreviation Draft := Models.Draft.

(** [FindConfig]: "contains relations, skip, and take", all optional. *)
Module FindConfig.
Record t : Type := {
  skip : option nat;
  take : option nat;
  relations : option (list string);
}.
(** The empty object [{}]. *)
Definition empty : t := {| skip := None; take := None; relations := None |}.
End FindConfig.

(** The query descriptor handed to the repository. *)
Module Query.
Record t : Type := {
  where_ : obj;
  skip : option nat;
  take : option nat;
  relations : option (list string);
}.
End Query.

(* ===================================================================== *)
(** * The database and the promise monad                                  *)
(* ===================================================================== *)

(** The state of the world a service runs in: the stored tables, and the
    environment's schedule: which of the coming storage calls fail, and
    which ids the entity-id generator will hand out. *)
Record World : Type := {
  rows : list CustomShippingOption;
  carts : gmap string value;
  shipping_options : gmap string value;
  faults : list (option StorageError);
  id_source : list string;
}.

Definition M (A : Type) : Type := World → Result A * World.

Definition ret {A} (a : A) : M A := λ w, (Ok a, w).

Definition throw {A} (e : Thrown) : M A := λ w, (Throw e, w).

Definition bind {A B} (c : M A) (k : A → M B) : M B := λ w,
  match c w with
  | (Ok a, w') => k a w'
  | (Throw e, w') => (Throw e, w')
  end.

Notation "'let!' x ':=' c 'in' k" := (bind c (λ x, k))
  (at level 10, x name, c at level 100, k at level 200).

(** What a computation resolves or rejects with, and the world it leaves. *)
Definition outcome {A} (c : M A) (w : World) : Result A := fst (c w).
Definition world_after {A} (c : M A) (w : World) : World := snd (c w).

(** The stored data of a world, without the environment's schedule. *)
Definition stored (w : World)
  : list CustomShippingOption * gmap string value * gmap string value :=
  (rows w, carts w, shipping_options w).

(* ===================================================================== *)
(** * The repository interface and the in-memory store                    *)
(* ===================================================================== *)

(** What the service layer asks of [CustomShippingOptionRepository]:
    the four ORM methods the source calls. *)
Module Repository.
Record t : Type := {
  findOne : Query.t → M (option CustomShippingOption);
  find : Query.t → M (list CustomShippingOption);
  create : obj → Draft;
  save : Draft → M CustomShippingOption;
}.
End Repository.

(** The ORM repository and the store behind it are not part of the
    sources.  The definitions from here to [memoryRepository] are that
    store, kept in memory, as the spec describes it: "Storage: whatever
    query/transaction interface the ORM exposes (find-by-filter, create,
    save, transaction scope)"; "Invariants: id uniqueness, referential
    validity of foreign keys (enforced by the underlying store, not by
    application logic)". *)

(** The fault, if any, that the schedule holds for the next storage call. *)
Definition next_fault (w : World) : option StorageError :=
  match faults w with
  | Some e :: _ => Some e
  | _ => None
  end.

Definition with_faults (fs : list (option StorageError)) (w : World) : World :=
  {| rows := rows w; carts := carts w; shipping_options := shipping_options w;
     faults := fs; id_source := id_source w |}.

(** Modelled from the spec: one round trip to the store ("connection
    errors [...] propagate [...] from the storage layer"): it fails as the
    schedule says, and runs [body] otherwise. *)
Definition storage_call {A} (body : M A) : M A := λ w,
  match faults w with
  | Some e :: rest => (Throw (StorageFailure e), with_faults rest w)
  | None :: rest => body (with_faults rest w)
  | [] => body w
  end.

(** The value a stored record holds in the column named [k]. *)
Definition column (k : string) (r : CustomShippingOption) : option value :=
  if String.eqb k "id" then Some (VStr (Models.id r))
  else if String.eqb k "cart_id" then Models.cart_id r
  else if String.eqb k "shipping_option_id" then Models.shipping_option_id r
  else if String.eqb k "price" then Models.price r
  else if String.eqb k "metadata" then Models.metadata r
  else None.

(** Modelled from the spec: "Selector: a set of filter criteria used to
    match records."  A record matches when every criterion of the selector
    is the value of the record's column of that name. *)
Definition matches (selector : obj) (r : CustomShippingOption) : bool :=
  forallb (λ kv, match column kv.1 r with
                 | Some v => value_eqb kv.2 v
                 | None => false
                 end) (map_to_list selector).

(** Following a foreign key into a related table. *)
Definition follow (table : gmap string value) (fk : option value) : option value :=
  match fk with
  | Some (VStr k) => table !! k
  | _ => None
  end.

(** Modelled from the spec: the "record shaped by the requested
    relations": [cart] and [shipping_option] are loaded when, and only
    when, they are asked for. *)
Definition load_relations (relations : option (list string)) (w : World)
    (r : CustomShippingOption) : CustomShippingOption :=
  let asked := default [] relations in
  {| Models.id := Models.id r;
     Models.cart_id := Models.cart_id r;
     Models.shipping_option_id := Models.shipping_option_id r;
     Models.price := Models.price r;
     Models.metadata := Models.metadata r;
     Models.cart :=
       if bool_decide ("cart" ∈ asked)
       then follow (carts w) (Models.cart_id r) else None;
     Models.shipping_option :=
       if bool_decide ("shipping_option" ∈ asked)
       then follow (shipping_options w) (Models.shipping_option_id r) else None |}.

(** Modelled from the spec: "paginated by skip/take": drop [skip]
    records, keep at most [take] of the rest. *)
Definition paginate {A} (skip take : option nat) (l : list A) : list A :=
  let rest := drop (default 0 skip) l in
  match take with
  | Some n => firstn n rest
  | None => rest
  end.

(** Modelled from the spec: [repository.findOne(query)], the lookup that
    "yields no row" or one row: the first stored record that matches. *)
Definition mem_findOne (q : Query.t) : M (option CustomShippingOption) :=
  storage_call (λ w,
    (Ok (load_relations (Query.relations q) w
           <$> List.find (matches (Query.where_ q)) (rows w)), w)).

(** Modelled from the spec: [repository.find(query)], "all records
    matching selector, paginated by skip/take". *)
Definition mem_find (q : Query.t) : M (list CustomShippingOption) :=
  storage_call (λ w,
    (Ok (load_relations (Query.relations q) w
           <$> paginate (Query.skip q) (Query.take q)
                 (List.filter (matches (Query.where_ q)) (rows w))), w)).

(** Modelled from the spec: [repository.create(plain)], a new entity
    instance holding the columns found in a plain object. *)
Definition mem_create (plain : obj) : Draft :=
  {| Models.d_cart_id := plain !! "cart_id";
     Models.d_shipping_option_id := plain !! "shipping_option_id";
     Models.d_price := plain !! "price";
     Models.d_metadata := plain !! "metadata" |}.

(** The id the generator hands out next. *)
Definition next_id (w : World) : string := hd "" (id_source w).

Definition id_taken (i : string) (w : World) : bool :=
  existsb (λ r, String.eqb (Models.id r) i) (rows w).

Definition insert_row (d : Draft) (i : string) : CustomShippingOption :=
  {| Models.id := i;
     Models.cart_id := Models.d_cart_id d;
     Models.shipping_option_id := Models.d_shipping_option_id d;
     Models.price := Models.d_price d;
     Models.metadata := Models.d_metadata d;
     Models.cart := None;
     Models.shipping_option := None |}.

(** Modelled from the spec: "referential validity of foreign keys
    (enforced by the underlying store [...])".  A foreign key that is set
    must be the key of a row of the table it points to; one that is
    absent or null points nowhere and is accepted. *)
Definition references (table : gmap string value) (fk : option value) : bool :=
  match fk with
  | None => true
  | Some VNull => true
  | Some (VStr k) =>
      match table !! k with
      | Some _ => true
      | None => false
      end
  | Some _ => false
  end.

Definition references_valid (d : Draft) (w : World) : bool :=
  references (carts w) (Models.d_cart_id d)
  && references (shipping_options w) (Models.d_shipping_option_id d).

(** Modelled from the spec: [repository.save(entity)] of a new entity.
    The entity gets a generated id and is inserted; the store refuses an
    id it already holds and a foreign key that names no row
    ("Invariants: id uniqueness, referential validity of foreign keys
    (enforced by the underlying store, not by application logic)"). *)
Definition mem_save (d : Draft) : M CustomShippingOption :=
  storage_call (λ w,
    let i := next_id w in
    let w1 := {| rows := rows w; carts := carts w;
                 shipping_options := shipping_options w; faults := faults w;
                 id_source := tl (id_source w) |} in
    if id_taken i w then
      (Throw (StorageFailure (ConstraintViolation "duplicate key: id")), w1)
    else if negb (references_valid d w) then
      (Throw (StorageFailure (ConstraintViolation "foreign key violation")), w1)
    else
      let r := insert_row d i in
      (Ok r, {| rows := rows w ++ [r]; carts := carts w;
                shipping_options := shipping_options w; faults := faults w;
                id_source := tl (id_source w) |})).

(** Modelled from the spec: the repository the services are given. *)
Definition memoryRepository : Repository.t :=
  {| Repository.findOne := mem_findOne;
     Repository.find := mem_find;
     Repository.create := mem_create;
     Repository.save := mem_save |}.

(** Modelled from the spec: [buildQuery] (utils) is not part of the
    sources.  "Query Builder: turns a filter selector + pagination/relations
    config into a database query descriptor." *)
Definition buildQuery (selector : obj) (config : FindConfig.t) : Query.t :=
  {| Query.where_ := selector;
     Query.skip := FindConfig.skip config;
     Query.take := FindConfig.take config;
     Query.relations := FindConfig.relations config |}.

(** Modelled from the spec: rolling back restores the stored tables;
    what the environment has already done (faults raised, ids handed out)
    stays. *)
Definition rollback (before after : World) : World :=
  {| rows := rows before; carts := carts before;
     shipping_options := shipping_options before;
     faults := faults after; id_source := id_source after |}.

(** Modelled from the spec: [TransactionBaseService.atomicPhase_] is not
    part of the sources.  "Transaction Wrapper: runs a unit of work against
    a database connection/transaction, committing on success, rolling back
    on thrown error." *)
Definition atomicPhase_ {A} (work : M A) : M A := λ w,
  match work w with
  | (Ok a, w') => (Ok a, w')
  | (Throw e, w') => (Throw e, rollback w w')
  end.

(* ===================================================================== *)
(** * CustomShippingOptionService                                         *)
(* ===================================================================== *)

Module CustomShippingOptionService.
Section Service.

(** The constructor's injected repository. *)
Variable customShippingOptionRepository_ : Repository.t.

Definition not_found_message (id : string) : string :=
  "Custom shipping option with id: " +:+ id +:+ " was not found.".

(** [retrieve(id, config = {})] *)
Definition retrieve (id : string) (config : option FindConfig.t)
  : M CustomShippingOption :=
  let config := default FindConfig.empty config in
  atomicPhase_ (
    let customShippingOptionRepo := customShippingOptionRepository_ in
    let query := buildQuery {[ "id" := VStr id ]} config in
    let! customShippingOption :=
      Repository.findOne customShippingOptionRepo query in
    match customShippingOption with
    | None => throw (MedusaError NOT_FOUND (not_found_message id))
    | Some found => ret found
    end).

(** The default of [list]'s second parameter. *)
Definition list_default_config : FindConfig.t :=
  {| FindConfig.skip := Some 0;
     FindConfig.take := Some 50;
     FindConfig.relations := Some [] |}.

(** [list(selector, config = { skip: 0, take: 50, relations: [] })] *)
Definition list (selector : obj) (config : option FindConfig.t)
  : M (list CustomShippingOption) :=
  let config := default list_default_config config in
  atomicPhase_ (
    let customShippingOptionRepo := customShippingOptionRepository_ in
    let query := buildQuery selector config in
    Repository.find customShippingOptionRepo query).

(** The default of [create]'s second parameter: [{ metadata: {} }]. *)
Definition create_default_config : obj := {[ "metadata" := VObj [] ]}.

(** [create(data, config = { metadata: {} })] *)
Definition create (data : obj) (config : option obj)
  : M CustomShippingOption :=
  let config := default create_default_config config in
  let metadata := config !! "metadata" in
  let cart_id := data !! "cart_id" in
  let shipping_option_id := data !! "shipping_option_id" in
  let price := data !! "price" in
  atomicPhase_ (
    let customShippingOptionRepo := customShippingOptionRepository_ in
    let customShippingOption :=
      Repository.create customShippingOptionRepo
        (literal [("cart_id", cart_id);
                  ("shipping_option_id", shipping_option_id);
                  ("price", price);
                  ("metadata", metadata)]) in
    let! result := Repository.save customShippingOptionRepo customShippingOption in
    ret result).

End Service.
End CustomShippingOptionService.

(* ===================================================================== *)
(** * SalesChannelService                                                 *)
(* ===================================================================== *)

Module SalesChannelService.

(** The [SalesChannel] entity, of which this service never builds one. *)
Definition SalesChannel : Type := obj.

Definition not_implemented : string := "Method not implemented.".

Definition retrieve (id : string) : M SalesChannel :=
  throw (JsError not_implemented).

(** The default of [listAndCount]'s second parameter. *)
Definition listAndCount_default_config : FindConfig.t :=
  {| FindConfig.skip := Some 0;
     FindConfig.take := Some 10;
     FindConfig.relations := Some [] |}.

(** [listAndCount(selector = {}, config = { relations: [], skip: 0, take: 10 })] *)
Definition listAndCount (selector : option obj) (config : option FindConfig.t)
  : M (list SalesChannel * nat) :=
  let selector := default (∅ : obj) selector in
  let config := default listAndCount_default_config config in
  throw (JsError not_implemented).

Definition create (data : obj) : M SalesChannel :=
  throw (JsError not_implemented).

Definition update (id : string) (data : obj) : M SalesChannel :=
  throw (JsError not_implemented).

Definition delete (id : string) : M unit :=
  throw (JsError not_implemented).

End SalesChannelService.

(* ===================================================================== *)
(** * Admin hooks for sales channels                                      *)
(* ===================================================================== *)

Module SalesChannelHooks.

(** The methods of [client.admin.salesChannels] the hooks call; each is
    one HTTP request. *)
Inductive ClientCall : Type :=
| SalesChannelsCreate (payload : obj)
| SalesChannelsUpdate (id : string) (payload : obj)
| SalesChannelsDelete (id : string).

Inductive Response : Type :=
| Resolved (body : value)
| Rejected (error : string).

(** Modelled from the spec: [adminSalesChannelsKeys] (queries) is not
    part of the sources; these are the keys of the "related cached query
    keys", named after the factory methods the hooks call. *)
Inductive QueryKey : Type :=
| KeyLists
| KeyList (query : option obj)
| KeyDetail (id : string).

Module adminSalesChannelsKeys.
Definition lists : QueryKey := KeyLists.
Definition list (query : option obj) : QueryKey := KeyList query.
Definition detail (id : string) : QueryKey := KeyDetail id.
End adminSalesChannelsKeys.

(** The browser side: the remote API as the client sees it, the requests
    sent so far, and the query keys marked stale so far. *)
Record Browser : Type := {
  server : ClientCall → Response;
  requests : list ClientCall;
  invalidated : list QueryKey;
}.

Definition Async (A : Type) : Type := Browser → A * Browser.

(** Modelled from the spec: "issues one HTTP call via a shared client";
    the client library is not part of the sources.  The call is logged
    and answered by the server. *)
Definition request (c : ClientCall) : Async Response := λ b,
  (server b c,
   {| server := server b; requests := requests b ++ [c];
      invalidated := invalidated b |}).

(** Modelled from the spec: [client.admin.salesChannels], the resource
    of the shared client the hooks call; each method is one HTTP call. *)
Module salesChannels.
Definition create (payload : obj) : Async Response :=
  request (SalesChannelsCreate payload).
Definition update (id : string) (payload : obj) : Async Response :=
  request (SalesChannelsUpdate id payload).
Definition delete (id : string) : Async Response :=
  request (SalesChannelsDelete id).
End salesChannels.

(** Modelled from the spec: [queryClient.invalidateQueries(key)] "marks
    related cached query keys as stale". *)
Definition invalidateQueries (key : QueryKey) (b : Browser) : Browser :=
  {| server := server b; requests := requests b;
     invalidated := invalidated b ++ [key] |}.

Record UseMutationOptions : Type := {
  given : option obj;
  onSuccess : Browser → Browser;
}.

(** Modelled from the spec: [buildOptions] (hooks/utils) is not part of
    the sources.  "on success, marks related cached query keys as stale
    so dependent UI re-fetches." *)
Definition buildOptions (queryKey : list QueryKey) (options : option obj)
  : UseMutationOptions :=
  {| given := options;
     onSuccess := λ b, foldl (λ acc key, invalidateQueries key acc) b queryKey |}.

Record Mutation (V : Type) : Type := {
  mutationFn : V → Async Response;
  options : UseMutationOptions;
}.
Arguments mutationFn {V} _.
Arguments options {V} _.

Definition useMutation {V} (fn : V → Async Response)
    (opts : UseMutationOptions) : Mutation V :=
  {| mutationFn := fn; options := opts |}.

(** Modelled from the spec: one invocation of the mutation function a
    hook returns: the call is issued, and the success callback runs
    when, and only when, the call resolves. *)
Definition mutate {V} (m : Mutation V) (variables : V) : Async Response := λ b,
  match mutationFn m variables b with
| (Resolved body, b') => (Resolved body, onSuccess (options m) b')
| (Rejected error, b') => (Rejected error, b')
  end.

Definition useAdminCreateSalesChannel (options : option obj) : Mutation obj :=
  useMutation
    (λ payload, salesChannels.create payload)
    (buildOptions [adminSalesChannelsKeys.list None] options).

Definition useAdminUpdateSalesChannel (id : string) (options : option obj)
  : Mutation obj :=
  useMutation
    (λ payload, salesChannels.update id payload)
    (buildOptions
       [adminSalesChannelsKeys.lists; adminSalesChannelsKeys.detail id]
       options).

Definition useAdminDeleteSalesChannel (id : string) (options : option obj)
  : Mutation unit :=
  useMutation
    (λ _ : unit, salesChannels.delete id)
    (buildOptions
       [adminSalesChannelsKeys.lists; adminSalesChannelsKeys.detail id]
       options).

End SalesChannelHooks.

(* ===================================================================== *)
(** * Auxiliary definitions for the statements                            *)
(* ===================================================================== *)

(** The world once the store has served one more call. *)
Definition tick (w : World) : World := with_faults (tl (faults w)) w.

(** Store invariant: ids are unique among the stored records. *)
Definition unique_ids (w : World) : Prop := NoDup (Models.id <$> rows w).

(** The columns of a record, without its loaded relations. *)
Definition columns (r : CustomShippingOption)
  : string * option value * option value * option value * option value :=
  (Models.id r, Models.cart_id r, Models.shipping_option_id r,
   Models.price r, Models.metadata r).

(** The metadata [create] reads from its [config] parameter. *)
Definition config_metadata (config : option obj) : option value :=
  default CustomShippingOptionService.create_default_config config !! "metadata".

(** The relations [retrieve] asks for, given its [config] parameter. *)
Definition retrieve_relations (config : option FindConfig.t) : option (list string) :=
  FindConfig.relations (default FindConfig.empty config).

(** The record [create] is expected to persist under the id [i]. *)
Definition expected_row (data : obj) (config : option obj) (i : string)
  : CustomShippingOption :=
  {| Models.id := i;
     Models.cart_id := data !! "cart_id";
     Models.shipping_option_id := data !! "shipping_option_id";
     Models.price := data !! "price";
     Models.metadata := config_metadata config;
     Models.cart := None;
     Models.shipping_option := None |}.

(** Whether the foreign keys [create] reads from [data] name stored
    rows (or are absent). *)
Definition data_references_valid (data : obj) (w : World) : bool :=
  references (carts w) (data !! "cart_id")
  && references (shipping_options w) (data !! "shipping_option_id").

(** The world after a [save] that reached the store: one entry of the
    schedule and one generated id are used up. *)
Definition spend_id (w : World) : World :=
  {| rows := rows w; carts := carts w; shipping_options := shipping_options w;
     faults := tl (faults w); id_source := tl (id_source w) |}.

Definition with_row (r : CustomShippingOption) (w : World) : World :=
  {| rows := rows w ++ [r]; carts := carts w;
     shipping_options := shipping_options w;
     faults := faults w; id_source := id_source w |}.


(** Every public operation of the two services, as one call. *)
Inductive ServiceCall : Type :=
| CsoRetrieve (id : string) (config : option FindConfig.t)
| CsoList (selector : obj) (config : option FindConfig.t)
| CsoCreate (data : obj) (config : option obj)
| ScRetrieve (id : string)
| ScListAndCount (selector : option obj) (config : option FindConfig.t)
| ScCreate (data : obj)
| ScUpdate (id : string) (data : obj)
| ScDelete (id : string).

Definition rejected {A} (r : Result A) : option Thrown :=
  match r with
  | Ok _ => None
  | Throw e => Some e
  end.

(** What a call rejects with, if it rejects. *)
Definition rejection (repo : Repository.t) (call : ServiceCall) (w : World)
  : option Thrown :=
  match call with
  | CsoRetrieve id config =>
      rejected (outcome (CustomShippingOptionService.retrieve repo id config) w)
  | CsoList selector config =>
      rejected (outcome (CustomShippingOptionService.list repo selector config) w)
  | CsoCreate data config =>
      rejected (outcome (CustomShippingOptionService.create repo data config) w)
  | ScRetrieve id => rejected (outcome (SalesChannelService.retrieve id) w)
  | ScListAndCount selector config =>
      rejected (outcome (SalesChannelService.listAndCount selector config) w)
  | ScCreate data => rejected (outcome (SalesChannelService.create data) w)
  | ScUpdate id data => rejected (outcome (SalesChannelService.update id data) w)
  | ScDelete id => rejected (outcome (SalesChannelService.delete id) w)
  end.

(** The world a call leaves behind. *)
Definition after_call (repo : Repository.t) (call : ServiceCall) (w : World)
  : World :=
  match call with
  | CsoRetrieve id config =>
      world_after (CustomShippingOptionService.retrieve repo id config) w
  | CsoList selector config =>
      world_after (CustomShippingOptionService.list repo selector config) w
  | CsoCreate data config =>
      world_after (CustomShippingOptionService.create repo data config) w
  | ScRetrieve id => world_after (SalesChannelService.retrieve id) w
  | ScListAndCount selector config =>
      world_after (SalesChannelService.listAndCount selector config) w
  | ScCreate data => world_after (SalesChannelService.create data) w
  | ScUpdate id data => world_after (SalesChannelService.update id data) w
  | ScDelete id => world_after (SalesChannelService.delete id) w
  end.

(** The query [retrieve] builds, and the entity [create] hands to [save]. *)
Definition retrieve_query (id : string) (config : option FindConfig.t) : Query.t :=
  buildQuery {[ "id" := VStr id ]} (default FindConfig.empty config).

Definition list_query (selector : obj) (config : option FindConfig.t) : Query.t :=
  buildQuery selector
    (default CustomShippingOptionService.list_default_config config).

Definition create_entity (repo : Repository.t) (data : obj) (config : option obj)
  : Draft :=
  Repository.create repo
    (literal [("cart_id", data !! "cart_id");
              ("shipping_option_id", data !! "shipping_option_id");
              ("price", data !! "price");
              ("metadata", config_metadata config)]).

Definition is_not_found (e : Thrown) : bool :=
  match e with
  | MedusaError NOT_FOUND _ => true
  | _ => false
  end.

Definition from_storage (e : Thrown) : bool :=
  match e with
  | StorageFailure _ => true
  | _ => false
  end.

(** A repository whose [save] writes the record and then fails: the
    unit of work throws after a partial write. *)
Definition torn_save (d : Draft) : M CustomShippingOption := λ w,
  match mem_save d w with
  | (Ok r, w') => (Throw (StorageFailure (ConnectionError "connection lost")), w')
  | (Throw e, w') => (Throw e, w')
  end.

Definition tornRepository : Repository.t :=
  {| Repository.findOne := mem_findOne;
     Repository.find := mem_find;
     Repository.create := mem_create;
     Repository.save := torn_save |}.

(** A small database used to exercise the statements. *)
Definition sample_row (i c o : string) (p : Z) : CustomShippingOption :=
  {| Models.id := i;
     Models.cart_id := Some (VStr c);
     Models.shipping_option_id := Some (VStr o);
     Models.price := Some (VNum p);
     Models.metadata := None;
     Models.cart := None;
     Models.shipping_option := None |}.

Definition sample_world : World :=
  {| rows := [sample_row "cso_1" "cart_1" "so_1" 500;
              sample_row "cso_2" "cart_2" "so_1" 0;
              sample_row "cso_3" "cart_1" "so_2" 250];
     carts := {[ "cart_1" := VObj [("email", VStr "ada@example.com")];
                 "cart_2" := VObj [("email", VStr "grace@example.com")] ]};
     shipping_options := {[ "so_1" := VObj [("name", VStr "Express")];
                            "so_2" := VObj [("name", VStr "Standard")] ]};
     faults := [];
     id_source := ["cso_4"; "cso_1"] |}.

Definition sample_data : obj :=
  {[ "cart_id" := VStr "cart_2";
     "shipping_option_id" := VStr "so_2";
     "price" := VNum 120 ]}.

(* ===================================================================== *)
(** * Sequences of calls                                                  *)
(* ===================================================================== *)

(** Calls made one after the other, each on the world the previous one
    left. *)
Definition run_calls (repo : Repository.t) (calls : list ServiceCall)
    (w : World) : World :=
  foldl (λ acc call, after_call repo call acc) w calls.

(** The calls whose method reaches the repository: those of
    CustomShippingOptionService. *)
Definition uses_storage (call : ServiceCall) : bool :=
  match call with
  | CsoRetrieve _ _ | CsoList _ _ | CsoCreate _ _ => true
  | _ => false
  end.

Definition is_create (call : ServiceCall) : bool :=
  match call with
  | CsoCreate _ _ => true
  | _ => false
  end.

(** The stored records a selector matches. *)
Definition matching (selector : obj) (w : World) : list CustomShippingOption :=
  List.filter (matches selector) (rows w).

(** The sample database behind a connection that fails once. *)
Definition faulty_world : World :=
  with_faults [Some (ConnectionError "timeout")] sample_world.



(** A database with more matching records than one page of [list]:
    sixty-four records, sixty of them with shipping option ["so_1"]. *)
Definition crowded_world : World :=
  {| rows := (λ n : nat,
                sample_row ("cso_" +:+ pretty n) "cart_1"
                  (if Nat.eqb (n `mod` 16) 0 then "so_2" else "so_1")
                  (Z.of_nat n)) <$> seq 1 64;
     carts := carts sample_world;
     shipping_options := shipping_options sample_world;
     faults := [];
     id_source := ["cso_65"] |}.

(** One invocation of the mutation of one of the three hooks. *)
Inductive Invocation : Type :=
| InvokeCreate (options : option obj) (payload : obj)
| InvokeUpdate (id : string) (options : option obj) (payload : obj)
| InvokeDelete (id : string) (options : option obj).

Definition invoke (i : Invocation)
  : SalesChannelHooks.Async SalesChannelHooks.Response :=
  match i with
  | InvokeCreate options payload =>
      SalesChannelHooks.mutate
        (SalesChannelHooks.useAdminCreateSalesChannel options) payload
  | InvokeUpdate id options payload =>
      SalesChannelHooks.mutate
        (SalesChannelHooks.useAdminUpdateSalesChannel id options) payload
  | InvokeDelete id options =>
      SalesChannelHooks.mutate
        (SalesChannelHooks.useAdminDeleteSalesChannel id options) tt
  end.

(** Invocations made one after the other. *)
Definition invoke_all (invs : list Invocation) (b : SalesChannelHooks.Browser)
  : SalesChannelHooks.Browser :=
  foldl (λ acc i, snd (invoke i acc)) b invs.

(** The client call an invocation is expected to issue. *)
Definition call_of (i : Invocation) : SalesChannelHooks.ClientCall :=
  match i with
  | InvokeCreate _ payload => SalesChannelHooks.SalesChannelsCreate payload
  | InvokeUpdate id _ payload => SalesChannelHooks.SalesChannelsUpdate id payload
  | InvokeDelete id _ => SalesChannelHooks.SalesChannelsDelete id
  end.

(** The query keys an invocation is expected to mark stale when its
    call resolves. *)
Definition keys_of (i : Invocation) : list SalesChannelHooks.QueryKey :=
  match i with
  | InvokeCreate _ _ => [SalesChannelHooks.KeyList None]
  | InvokeUpdate id _ _ | InvokeDelete id _ =>
      [SalesChannelHooks.KeyLists; SalesChannelHooks.KeyDetail id]
  end.

(** The sales channel an invocation is about, if it names one. *)
Definition target_of (i : Invocation) : option string :=
  match i with
  | InvokeCreate _ _ => None
  | InvokeUpdate id _ _ | InvokeDelete id _ => Some id
  end.

Definition resolves (b : SalesChannelHooks.Browser) (i : Invocation) : bool :=
  match SalesChannelHooks.server b (call_of i) with
  | SalesChannelHooks.Resolved _ => true
  | SalesChannelHooks.Rejected _ => false
  end.

(** A remote API that accepts everything but the deletion of ["sc_2"]. *)
Definition sample_browser : SalesChannelHooks.Browser :=
  {| SalesChannelHooks.server := λ c,
       match c with
       | SalesChannelHooks.SalesChannelsDelete id =>
           if String.eqb id "sc_2"
           then SalesChannelHooks.Rejected "Request failed with status code 404"
           else SalesChannelHooks.Resolved VNull
       | _ => SalesChannelHooks.Resolved VNull
       end;
     SalesChannelHooks.requests := [];
     SalesChannelHooks.invalidated := [] |}.

(* ===================================================================== *)
(** * Values: equality is decided by [value_eqb]                          *)
(* ===================================================================== *)

Section ValueInduction.
Variable P : value → Prop.
Hypothesis HNull : P VNull.
Hypothesis HBool : ∀ b, P (VBool b).
Hypothesis HNum : ∀ n, P (VNum n).
Hypothesis HStr : ∀ s, P (VStr s).
Hypothesis HObj : ∀ fs, Forall (λ kv, P kv.2) fs → P (VObj fs).

Fixpoint value_nested_ind (v : value) : P v :=
  match v with
  | VNull => HNull
  | VBool b => HBool b
  | VNum n => HNum n
  | VStr s => HStr s
  | VObj fs =>
      HObj fs
        ((fix go (fs : list (string * value)) : Forall (λ kv, P kv.2) fs :=
            match fs with
            | [] => @List.Forall_nil _ (λ kv, P kv.2)
            | (k, x) :: rest =>
                @List.Forall_cons _ (λ kv, P kv.2) (k, x) rest
                  (value_nested_ind x) (go rest)
            end) fs)
  end.
End ValueInduction.

Lemma value_eqb_refl (a : value) : value_eqb a a = true.
Proof.
  induction a as [| b | n | s | fs IH] using value_nested_ind; simpl.
  - done.
  - by destruct b.
  - apply Z.eqb_refl.
  - apply String.eqb_refl.
  - induction IH as [| [k v] rest Hv _ IHrest]; [done |].
    simpl in Hv. by rewrite String.eqb_refl, Hv, IHrest.
Qed.

Lemma value_eqb_eq (a b : value) : value_eqb a b = true ↔ a = b.
Proof.
  split; [| intros ->; apply value_eqb_refl].
  revert b.
  induction a as [| x | x | x | fs IH] using value_nested_ind;
    intros [| y | y | y | gs]; simpl; try discriminate; try done.
  - intros H. f_equal. by apply Bool.eqb_prop.
  - intros H. f_equal. by apply Z.eqb_eq.
  - intros H. f_equal. by apply String.eqb_eq.
  - intros H. f_equal. revert gs H.
    induction IH as [| [k v] rest Hv _ IHrest]; intros [| [k' v'] gs'] H;
      try discriminate; [done |].
    simpl in Hv.
    apply andb_prop in H as [H Hrest]. apply andb_prop in H as [Hk Hvv].
    apply String.eqb_eq in Hk as ->. apply Hv in Hvv as ->.
    f_equal. by apply IHrest.
Qed.

(* ===================================================================== *)
(** * The in-memory store                                                 *)
(* ===================================================================== *)

Lemma tick_stored (w : World) : stored (tick w) = stored w.
Proof. done. Qed.

Lemma storage_call_ok {A} (body : M A) (w : World) :
  next_fault w = None → storage_call body w = body (tick w).
Proof.
  destruct w as [rs cs sos fs ids]. unfold next_fault, storage_call, tick; simpl.
  destruct fs as [| [e |] rest]; simpl; [done | discriminate | done].
Qed.

Lemma storage_call_fault {A} (body : M A) (w : World) (e : StorageError) :
  next_fault w = Some e →
  storage_call body w = (Throw (StorageFailure e), tick w).
Proof.
  destruct w as [rs cs sos fs ids]. unfold next_fault, storage_call, tick; simpl.
  destruct fs as [| [e' |] rest]; simpl; try discriminate.
  by intros [= ->].
Qed.

Lemma matches_spec (selector : obj) (r : CustomShippingOption) :
  matches selector r = true ↔
  ∀ k v, selector !! k = Some v → column k r = Some v.
Proof.
  unfold matches. rewrite forallb_forall. split.
  - intros H k v Hkv.
    specialize (H (k, v)). simpl in H.
    assert (Hin : In (k, v) (map_to_list selector)).
    { apply list_elem_of_In. by apply elem_of_map_to_list. }
    specialize (H Hin). destruct (column k r) as [v' |]; [| discriminate].
    by apply value_eqb_eq in H as ->.
  - intros H [k v] Hin. simpl.
    apply list_elem_of_In, elem_of_map_to_list in Hin.
    rewrite (H k v Hin). apply value_eqb_refl.
Qed.

Lemma matches_id (i : string) (r : CustomShippingOption) :
  matches {[ "id" := VStr i ]} r = String.eqb i (Models.id r).
Proof.
  unfold matches. rewrite map_to_list_singleton. simpl.
  by rewrite andb_true_r.
Qed.

Lemma find_by_id_none (i : string) (rs : list CustomShippingOption) :
  (∀ r, r ∈ rs → Models.id r ≠ i) →
  List.find (matches {[ "id" := VStr i ]}) rs = None.
Proof.
  induction rs as [| r rs IH]; intros H; simpl; [done |].
  rewrite matches_id.
  destruct (String.eqb_spec i (Models.id r)) as [-> | _].
  - exfalso. apply (H r); [left | done].
  - apply IH. intros r' Hr'. apply H. by right.
Qed.

Lemma find_by_id_some (i : string) (rs : list CustomShippingOption)
    (r : CustomShippingOption) :
  NoDup (Models.id <$> rs) → r ∈ rs → Models.id r = i →
  List.find (matches {[ "id" := VStr i ]}) rs = Some r.
Proof.
  induction rs as [| r0 rs IH]; intros Hnd Hin Hid; simpl.
  - by apply elem_of_nil in Hin.
  - rewrite matches_id. rewrite fmap_cons in Hnd.
    apply NoDup_cons in Hnd as [Hfresh Hnd].
    apply elem_of_cons in Hin as [-> | Hin].
    + subst i. by rewrite String.eqb_refl.
    + destruct (String.eqb_spec i (Models.id r0)) as [Heq | _].
      * exfalso. apply Hfresh. rewrite <- Heq, <- Hid.
        by apply list_elem_of_fmap_2.
      * by apply IH.
Qed.

Lemma find_by_id_inv (i : string) (rs : list CustomShippingOption)
    (r : CustomShippingOption) :
  List.find (matches {[ "id" := VStr i ]}) rs = Some r →
  r ∈ rs ∧ Models.id r = i.
Proof.
  intros H. apply find_some in H as [Hin Hm].
  rewrite matches_id in Hm. apply String.eqb_eq in Hm.
  split; [by apply list_elem_of_In | done].
Qed.

Lemma load_relations_same_tables (rels : option (list string)) (w w' : World)
    (r : CustomShippingOption) :
  carts w' = carts w → shipping_options w' = shipping_options w →
  load_relations rels w' r = load_relations rels w r.
Proof. intros Hc Hs. unfold load_relations. by rewrite Hc, Hs. Qed.

Lemma load_relations_columns (rels : option (list string)) (w : World)
    (r : CustomShippingOption) :
  columns (load_relations rels w r) = columns r.
Proof. done. Qed.

Lemma mem_create_literal (a b c d : option value) :
  mem_create (literal [("cart_id", a); ("shipping_option_id", b);
                       ("price", c); ("metadata", d)])
  = {| Models.d_cart_id := a; Models.d_shipping_option_id := b;
       Models.d_price := c; Models.d_metadata := d |}.
Proof.
  unfold mem_create.
  destruct a, b, c, d; simpl; f_equal; by simplify_map_eq.
Qed.

Lemma id_taken_false (i : string) (w : World) :
  id_taken i w = false ↔ ∀ r, r ∈ rows w → Models.id r ≠ i.
Proof.
  unfold id_taken. split.
  - intros H r Hin Hid.
    assert (Hex : existsb (λ r, String.eqb (Models.id r) i) (rows w) = true).
    { apply existsb_exists. exists r. split; [by apply list_elem_of_In |].
      by apply String.eqb_eq. }
    congruence.
  - intros H. apply not_true_is_false. intros Hex.
    apply existsb_exists in Hex as (r & Hin & Heq).
    apply String.eqb_eq in Heq. apply list_elem_of_In in Hin. by apply (H r).
Qed.

(* ===================================================================== *)
(** * CustomShippingOptionService on the in-memory store                  *)
(* ===================================================================== *)

Lemma retrieve_memory (id : string) (config : option FindConfig.t) (w : World) :
  next_fault w = None →
  CustomShippingOptionService.retrieve memoryRepository id config w =
  match List.find (matches {[ "id" := VStr id ]}) (rows w) with
  | Some r => (Ok (load_relations (retrieve_relations config) w r), tick w)
  | None =>
      (Throw (MedusaError NOT_FOUND
                (CustomShippingOptionService.not_found_message id)),
       rollback w (tick w))
  end.
Proof.
  intros Hok.
  unfold CustomShippingOptionService.retrieve, atomicPhase_, bind; simpl.
  unfold mem_findOne. rewrite (storage_call_ok _ _ Hok). simpl.
  destruct (List.find _ (rows w)); simpl; done.
Qed.

Lemma list_memory (selector : obj) (config : option FindConfig.t) (w : World) :
  next_fault w = None →
  CustomShippingOptionService.list memoryRepository selector config w =
  let cfg := default CustomShippingOptionService.list_default_config config in
  (Ok (load_relations (FindConfig.relations cfg) w
         <$> paginate (FindConfig.skip cfg) (FindConfig.take cfg)
               (List.filter (matches selector) (rows w))),
   tick w).
Proof.
  intros Hok.
  unfold CustomShippingOptionService.list, atomicPhase_; simpl.
  unfold mem_find. by rewrite (storage_call_ok _ _ Hok).
Qed.

Lemma create_memory_eq (data : obj) (config : option obj) (w : World) :
  next_fault w = None →
  CustomShippingOptionService.create memoryRepository data config w
  = if id_taken (next_id w) w then
      (Throw (StorageFailure (ConstraintViolation "duplicate key: id")),
       spend_id w)
    else if negb (data_references_valid data w) then
      (Throw (StorageFailure (ConstraintViolation "foreign key violation")),
       spend_id w)
    else
      (Ok (expected_row data config (next_id w)),
       with_row (expected_row data config (next_id w)) (spend_id w)).
Proof.
  intros Hok.
  unfold CustomShippingOptionService.create, atomicPhase_, bind, memoryRepository.
  cbn [Repository.create Repository.save].
  rewrite mem_create_literal. unfold mem_save.
  rewrite (storage_call_ok _ _ Hok).
  change (next_id (tick w)) with (next_id w).
  change (id_taken (next_id w) (tick w)) with (id_taken (next_id w) w).
  change (references_valid _ (tick w)) with (data_references_valid data w).
  destruct (id_taken (next_id w) w); [done |].
  by destruct (data_references_valid data w).
Qed.

Lemma create_memory_ok (data : obj) (config : option obj) (w : World) :
  next_fault w = None → id_taken (next_id w) w = false →
  data_references_valid data w = true →
  ∃ w', CustomShippingOptionService.create memoryRepository data config w
        = (Ok (expected_row data config (next_id w)), w')
      ∧ rows w' = rows w ++ [expected_row data config (next_id w)]
      ∧ carts w' = carts w ∧ shipping_options w' = shipping_options w
      ∧ faults w' = tl (faults w) ∧ id_source w' = tl (id_source w).
Proof.
  intros Hok Hfresh Hrefs.
  rewrite (create_memory_eq _ _ _ Hok), Hfresh, Hrefs. simpl.
  eexists. split; [reflexivity |]. done.
Qed.

Lemma create_memory_inv (data : obj) (config : option obj) (w w' : World)
    (r : CustomShippingOption) :
  CustomShippingOptionService.create memoryRepository data config w = (Ok r, w') →
  next_fault w = None ∧ id_taken (next_id w) w = false
  ∧ r = expected_row data config (next_id w)
  ∧ rows w' = rows w ++ [r]
  ∧ carts w' = carts w ∧ shipping_options w' = shipping_options w.
Proof.
  intros H.
  destruct (next_fault w) as [e |] eqn:Hf.
  - exfalso. revert H.
    unfold CustomShippingOptionService.create, atomicPhase_, bind; simpl.
    unfold mem_save. by rewrite (storage_call_fault _ _ _ Hf).
  - rewrite (create_memory_eq _ _ _ Hf) in H.
    destruct (id_taken (next_id w) w); [discriminate |].
    destruct (data_references_valid data w); [| discriminate].
    simpl in H. by injection H as <- <-.
Qed.

Lemma create_memory_inv_references (data : obj) (config : option obj)
    (w w' : World) (r : CustomShippingOption) :
  CustomShippingOptionService.create memoryRepository data config w = (Ok r, w') →
  data_references_valid data w = true.
Proof.
  intros H.
  destruct (next_fault w) as [e |] eqn:Hf.
  - exfalso. revert H.
    unfold CustomShippingOptionService.create, atomicPhase_, bind; simpl.
    unfold mem_save. by rewrite (storage_call_fault _ _ _ Hf).
  - rewrite (create_memory_eq _ _ _ Hf) in H.
    destruct (id_taken (next_id w) w); [discriminate |].
    by destruct (data_references_valid data w).
Qed.

Lemma sample_world_unique_ids : unique_ids sample_world.
Proof. unfold unique_ids. apply (bool_decide_unpack _). by vm_compute. Qed.

Lemma create_preserves_unique_ids (data : obj) (config : option obj)
    (w w' : World) (r : CustomShippingOption) :
  CustomShippingOptionService.create memoryRepository data config w = (Ok r, w') →
  unique_ids w → unique_ids w'.
Proof.
  intros H Hnd. apply create_memory_inv in H as (_ & Hfresh & Hr & Hrows & _).
  unfold unique_ids in *. rewrite Hrows, fmap_app. simpl.
  apply NoDup_app. split; [done |]. split; [| apply NoDup_singleton].
  intros i Hi Hin. apply list_elem_of_singleton in Hin.
  apply list_elem_of_fmap in Hi as (r0 & Hi & Hr0).
  rewrite id_taken_false in Hfresh. apply (Hfresh r0 Hr0).
  rewrite <- Hi, Hin. by rewrite Hr.
Qed.

(** C1. [retrieve(id, config)] on a store that answers: when no stored
    record has the id, it rejects with a NOT_FOUND error; when a stored
    record has the id, it resolves to that record, with the relations the
    config asks for loaded.  No config is excluded. *)
Theorem retrieve_not_found_or_the_record
    (id : string) (config : option FindConfig.t) (w : World) :
  next_fault w = None →
  unique_ids w →
  ((∀ r, r ∈ rows w → Models.id r ≠ id) →
   outcome (CustomShippingOptionService.retrieve memoryRepository id config) w
   = Throw (MedusaError NOT_FOUND
              (CustomShippingOptionService.not_found_message id)))
  ∧ (∀ r, r ∈ rows w → Models.id r = id →
     outcome (CustomShippingOptionService.retrieve memoryRepository id config) w
     = Ok (load_relations (retrieve_relations config) w r)).
Proof.
  intros Hok Hnd. unfold outcome. rewrite (retrieve_memory _ _ _ Hok). split.
  - intros Hnone. by rewrite (find_by_id_none _ _ Hnone).
  - intros r Hin Hid. by rewrite (find_by_id_some _ _ _ Hnd Hin Hid).
Qed.

Lemma retrieve_not_found_or_the_record_witness :
  next_fault sample_world = None
  ∧ unique_ids sample_world
  ∧ outcome (CustomShippingOptionService.retrieve memoryRepository "cso_9" None)
      sample_world
    = Throw (MedusaError NOT_FOUND
               "Custom shipping option with id: cso_9 was not found.")
  ∧ outcome (CustomShippingOptionService.retrieve memoryRepository "cso_2"
               (Some {| FindConfig.skip := None; FindConfig.take := None;
                        FindConfig.relations := Some ["shipping_option"] |}))
      sample_world
    = Ok {| Models.id := "cso_2";
            Models.cart_id := Some (VStr "cart_2");
            Models.shipping_option_id := Some (VStr "so_1");
            Models.price := Some (VNum 0);
            Models.metadata := None;
            Models.cart := None;
            Models.shipping_option := Some (VObj [("name", VStr "Express")]) |}.
Proof.
  split; [reflexivity |]. split; [exact sample_world_unique_ids |]. split.
  - apply (retrieve_not_found_or_the_record "cso_9" None sample_world
             eq_refl sample_world_unique_ids).
    intros r Hin. simpl in Hin.
    repeat (apply elem_of_cons in Hin as [-> | Hin]; [discriminate |]).
    by apply elem_of_nil in Hin.
  - rewrite (proj2 (retrieve_not_found_or_the_record "cso_2" _ sample_world
                      eq_refl sample_world_unique_ids)
               (sample_row "cso_2" "cart_2" "so_1" 0)
               (list_elem_of_further _ _ _ (list_elem_of_here _ _)) eq_refl).
    by vm_compute.
Defined.

Lemma find_by_id_appended (i : string) (rs : list CustomShippingOption)
    (r : CustomShippingOption) :
  (∀ r0, r0 ∈ rs → Models.id r0 ≠ i) → Models.id r = i →
  List.find (matches {[ "id" := VStr i ]}) (rs ++ [r]) = Some r.
Proof.
  intros Hfresh Hid. induction rs as [| r0 rs IH]; simpl.
  - rewrite matches_id, Hid. by rewrite String.eqb_refl.
  - rewrite matches_id.
    destruct (String.eqb_spec i (Models.id r0)) as [Heq | _].
    + exfalso. apply (Hfresh r0); [left | done].
    + apply IH. intros r1 Hr1. apply Hfresh. by right.
Qed.

Lemma config_metadata_spec (config : option obj) :
  config_metadata config
  = match config with
    | None => Some (VObj [])
    | Some given => given !! "metadata"
    end.
Proof. by destruct config. Qed.

Lemma paginate_subseteq {A} (skip take : option nat) (l : list A) :
  paginate skip take l ⊆ l.
Proof.
  unfold paginate. destruct take as [n |].
  - etrans; [apply subseteq_take | apply subseteq_drop].
  - apply subseteq_drop.
Qed.

Lemma paginate_length {A} (skip : option nat) (n : nat) (l : list A) :
  (length (paginate skip (Some n) l) ≤ n)%nat.
Proof. unfold paginate. rewrite length_take. lia. Qed.

(** C2. After [create(data, config)] has resolved to a record, [retrieve]
    of that record's id (with any config, on a store that answers)
    resolves to a record with the same id, cart_id, shipping_option_id,
    price and metadata. *)
Theorem create_then_retrieve_same_fields
    (data : obj) (config : option obj) (rconfig : option FindConfig.t)
    (w w' : World) (r : CustomShippingOption) :
  CustomShippingOptionService.create memoryRepository data config w = (Ok r, w') →
  next_fault w' = None →
  ∃ r',
    outcome (CustomShippingOptionService.retrieve memoryRepository
               (Models.id r) rconfig) w' = Ok r'
    ∧ Models.id r' = Models.id r
    ∧ Models.cart_id r' = Models.cart_id r
    ∧ Models.shipping_option_id r' = Models.shipping_option_id r
    ∧ Models.price r' = Models.price r
    ∧ Models.metadata r' = Models.metadata r.
Proof.
  intros Hcreate Hok.
  apply create_memory_inv in Hcreate as (_ & Hfresh & Hr & Hrows & _).
  rewrite id_taken_false in Hfresh.
  assert (Hid : Models.id r = next_id w) by (by rewrite Hr).
  exists (load_relations (retrieve_relations rconfig) w' r).
  split; [| done].
  unfold outcome. rewrite (retrieve_memory _ _ _ Hok), Hrows.
  rewrite (find_by_id_appended (Models.id r) (rows w) r); [done | | done].
  intros r0 Hr0. rewrite Hid. by apply Hfresh.
Qed.

Lemma create_then_retrieve_same_fields_witness :
  ∃ r',
    outcome (CustomShippingOptionService.retrieve memoryRepository "cso_4" None)
      (world_after
         (CustomShippingOptionService.create memoryRepository sample_data None)
         sample_world) = Ok r'
    ∧ Models.id r' = "cso_4"
    ∧ Models.cart_id r' = Some (VStr "cart_2")
    ∧ Models.shipping_option_id r' = Some (VStr "so_2")
    ∧ Models.price r' = Some (VNum 120)
    ∧ Models.metadata r' = Some (VObj []).
Proof.
  apply (create_then_retrieve_same_fields sample_data None None sample_world
           (world_after
              (CustomShippingOptionService.create memoryRepository sample_data None)
              sample_world)
           (expected_row sample_data None "cso_4")).
  - by vm_compute.
  - by vm_compute.
Defined.

(** C3. [list(selector, config)] on a store that answers resolves to the
    stored records that match the selector, in stored order, after
    dropping [skip] of them and keeping at most [take]; every record it
    returns is a stored record meeting every criterion of the selector,
    and with no skip and no take every such record is returned; a call
    without config is a call with skip 0 and take 50, so it returns the
    first fifty matching records. *)
Theorem list_matching_paginated
    (selector : obj) (config : option FindConfig.t) (w : World) :
  next_fault w = None →
  let cfg := default CustomShippingOptionService.list_default_config config in
  let result :=
    load_relations (FindConfig.relations cfg) w
      <$> paginate (FindConfig.skip cfg) (FindConfig.take cfg)
            (List.filter (matches selector) (rows w)) in
  outcome (CustomShippingOptionService.list memoryRepository selector config) w
  = Ok result
  ∧ (∀ r', r' ∈ result →
       ∃ r, r ∈ rows w
            ∧ (∀ k v, selector !! k = Some v → column k r = Some v)
            ∧ r' = load_relations (FindConfig.relations cfg) w r)
  ∧ (∀ n, FindConfig.take cfg = Some n → (length result ≤ n)%nat)
  ∧ (default 0%nat (FindConfig.skip cfg) = 0%nat → FindConfig.take cfg = None →
     ∀ r, r ∈ rows w →
          (∀ k v, selector !! k = Some v → column k r = Some v) →
          load_relations (FindConfig.relations cfg) w r ∈ result)
  ∧ CustomShippingOptionService.list memoryRepository selector None
    = CustomShippingOptionService.list memoryRepository selector
        (Some {| FindConfig.skip := Some 0; FindConfig.take := Some 50;
                 FindConfig.relations := Some [] |})
  ∧ outcome (CustomShippingOptionService.list memoryRepository selector None) w
    = Ok (load_relations (Some []) w
            <$> take 50 (List.filter (matches selector) (rows w))).
Proof.
  intros Hok cfg result. unfold outcome.
  rewrite !(list_memory _ _ _ Hok). simpl.
  split; [done |]. split; [| split; [| split; [| done]]].
  - intros r' Hr'. subst result.
    apply list_elem_of_fmap in Hr' as (r & -> & Hr).
    apply paginate_subseteq, list_elem_of_In, filter_In in Hr as [Hin Hm].
    exists r. split; [by apply list_elem_of_In |].
    split; [by apply matches_spec | done].
  - intros n Hn. subst result. rewrite length_fmap, Hn.
    apply paginate_length.
  - intros Hskip Htake r Hin Hm. subst result.
    apply list_elem_of_fmap. exists r. split; [done |].
    unfold paginate. rewrite Hskip, Htake. simpl.
    apply list_elem_of_In, filter_In. split; [by apply list_elem_of_In |].
    by apply matches_spec.
Qed.

Lemma list_matching_paginated_witness :
  outcome (CustomShippingOptionService.list memoryRepository
             {[ "shipping_option_id" := VStr "so_1" ]}
             (Some {| FindConfig.skip := Some 1; FindConfig.take := Some 5;
                      FindConfig.relations := None |}))
    sample_world
  = Ok [sample_row "cso_2" "cart_2" "so_1" 0].
Proof.
  rewrite (proj1 (list_matching_paginated
                    {[ "shipping_option_id" := VStr "so_1" ]}
                    (Some {| FindConfig.skip := Some 1; FindConfig.take := Some 5;
                             FindConfig.relations := None |})
                    sample_world eq_refl)).
  by vm_compute.
Defined.

(** C4. [create(data, config)], on a store that accepts the record (it
    answers, the generated id is free, and the cart_id and
    shipping_option_id of [data] name stored rows or are absent),
    persists exactly one new record, made of the cart_id,
    shipping_option_id and price of [data] and of the metadata of
    [config] (an empty object when no config is given), and resolves to
    that record. *)
Theorem create_persists_merged_record
    (data : obj) (config : option obj) (w : World) :
  next_fault w = None →
  id_taken (next_id w) w = false →
  data_references_valid data w = true →
  ∃ r,
    outcome (CustomShippingOptionService.create memoryRepository data config) w
    = Ok r
    ∧ rows (world_after
              (CustomShippingOptionService.create memoryRepository data config) w)
      = rows w ++ [r]
    ∧ Models.id r = next_id w
    ∧ Models.cart_id r = data !! "cart_id"
    ∧ Models.shipping_option_id r = data !! "shipping_option_id"
    ∧ Models.price r = data !! "price"
    ∧ Models.metadata r = match config with
                          | None => Some (VObj [])
                          | Some given => given !! "metadata"
                          end.
Proof.
  intros Hok Hfresh Hrefs.
  destruct (create_memory_ok data config w Hok Hfresh Hrefs)
    as (w' & Heq & Hrows & _).
  exists (expected_row data config (next_id w)).
  unfold outcome, world_after. rewrite Heq. simpl.
  repeat (split; [done |]). apply config_metadata_spec.
Qed.

Lemma create_persists_merged_record_witness :
  ∃ r,
    outcome (CustomShippingOptionService.create memoryRepository sample_data
               (Some {[ "metadata" := VObj [("note", VStr "gift")] ]}))
      sample_world = Ok r
    ∧ rows (world_after
              (CustomShippingOptionService.create memoryRepository sample_data
                 (Some {[ "metadata" := VObj [("note", VStr "gift")] ]}))
              sample_world)
      = rows sample_world ++ [r]
    ∧ Models.id r = "cso_4"
    ∧ Models.cart_id r = sample_data !! "cart_id"
    ∧ Models.shipping_option_id r = sample_data !! "shipping_option_id"
    ∧ Models.price r = sample_data !! "price"
    ∧ Models.metadata r
      = ({[ "metadata" := VObj [("note", VStr "gift")] ]} : obj) !! "metadata".
Proof.
  apply (create_persists_merged_record sample_data
           (Some {[ "metadata" := VObj [("note", VStr "gift")] ]}) sample_world).
  - reflexivity.
  - by vm_compute.
  - by vm_compute.
Defined.

(** C9. [create] reads nothing of [data] but cart_id, shipping_option_id
    and price: two inputs that agree on these three give the same call,
    whatever the repository; so any other field of [data], and a metadata
    field of [data] in particular, changes nothing.  The record that is
    persisted takes its metadata from [config]. *)
Theorem create_ignores_other_fields
    (repo : Repository.t) (data : obj) (config : option obj) :
  (∀ data' : obj,
     data' !! "cart_id" = data !! "cart_id" →
     data' !! "shipping_option_id" = data !! "shipping_option_id" →
     data' !! "price" = data !! "price" →
     CustomShippingOptionService.create repo data' config
     = CustomShippingOptionService.create repo data config)
  ∧ (∀ (k : string) (v : value),
       k ≠ "cart_id" → k ≠ "shipping_option_id" → k ≠ "price" →
       CustomShippingOptionService.create repo (<[k := v]> data) config
       = CustomShippingOptionService.create repo data config)
  ∧ (∀ v : value,
       CustomShippingOptionService.create repo (<["metadata" := v]> data) config
       = CustomShippingOptionService.create repo data config)
  ∧ (∀ (w w' : World) (r : CustomShippingOption),
       CustomShippingOptionService.create memoryRepository data config w
       = (Ok r, w') →
       rows w' = rows w ++ [r]
       ∧ columns r
         = (next_id w, data !! "cart_id", data !! "shipping_option_id",
            data !! "price", config_metadata config)).
Proof.
  assert (Hagree : ∀ data' : obj,
     data' !! "cart_id" = data !! "cart_id" →
     data' !! "shipping_option_id" = data !! "shipping_option_id" →
     data' !! "price" = data !! "price" →
     CustomShippingOptionService.create repo data' config
     = CustomShippingOptionService.create repo data config).
  { intros data' H1 H2 H3. unfold CustomShippingOptionService.create.
    by rewrite H1, H2, H3. }
  split; [exact Hagree |]. split; [| split].
  - intros k v Hc Hs Hp. apply Hagree; by rewrite lookup_insert_ne.
  - intros v. apply Hagree; by rewrite lookup_insert_ne.
  - intros w w' r H.
    apply create_memory_inv in H as (_ & _ & -> & Hrows & _). done.
Qed.

Lemma create_ignores_other_fields_witness :
  CustomShippingOptionService.create memoryRepository
    (<["metadata" := VObj [("note", VStr "dropped")]]>
       (<["id" := VStr "cso_mine"]> sample_data)) None
  = CustomShippingOptionService.create memoryRepository sample_data None
  ∧ outcome
      (CustomShippingOptionService.create memoryRepository
         (<["metadata" := VObj [("note", VStr "dropped")]]>
            (<["id" := VStr "cso_mine"]> sample_data)) None) sample_world
    = Ok {| Models.id := "cso_4";
            Models.cart_id := Some (VStr "cart_2");
            Models.shipping_option_id := Some (VStr "so_2");
            Models.price := Some (VNum 120);
            Models.metadata := Some (VObj []);
            Models.cart := None;
            Models.shipping_option := None |}.
Proof.
  assert (Hsame :
    CustomShippingOptionService.create memoryRepository
      (<["metadata" := VObj [("note", VStr "dropped")]]>
         (<["id" := VStr "cso_mine"]> sample_data)) None
    = CustomShippingOptionService.create memoryRepository sample_data None).
  { apply (proj1 (create_ignores_other_fields memoryRepository sample_data None));
      by vm_compute. }
  split; [exact Hsame |].
  rewrite Hsame. by vm_compute.
Defined.

(* ===================================================================== *)
(** * Errors: what is raised, and by whom                                 *)
(* ===================================================================== *)

Lemma atomicPhase_outcome {A} (work : M A) (w : World) :
  outcome (atomicPhase_ work) w = outcome work w.
Proof. unfold outcome, atomicPhase_. by destruct (work w) as [[a | e] w']. Qed.

Lemma atomicPhase_stored {A} (work : M A) (w : World) :
  stored (world_after (atomicPhase_ work) w)
  = match outcome work w with
    | Ok _ => stored (world_after work w)
    | Throw _ => stored w
    end.
Proof.
  unfold outcome, world_after, atomicPhase_.
  by destruct (work w) as [[a | e] w'].
Qed.

Lemma retrieve_outcome (repo : Repository.t) (id : string)
    (config : option FindConfig.t) (w : World) :
  outcome (CustomShippingOptionService.retrieve repo id config) w
  = match outcome (Repository.findOne repo (retrieve_query id config)) w with
    | Ok (Some found) => Ok found
    | Ok None =>
        Throw (MedusaError NOT_FOUND
                 (CustomShippingOptionService.not_found_message id))
    | Throw e => Throw e
    end.
Proof.
  unfold CustomShippingOptionService.retrieve. rewrite atomicPhase_outcome.
  unfold outcome, bind, retrieve_query.
  by destruct (Repository.findOne repo _ w) as [[[found |] | e] w'].
Qed.

Lemma list_outcome (repo : Repository.t) (selector : obj)
    (config : option FindConfig.t) (w : World) :
  outcome (CustomShippingOptionService.list repo selector config) w
  = outcome (Repository.find repo (list_query selector config)) w.
Proof.
  unfold CustomShippingOptionService.list. by rewrite atomicPhase_outcome.
Qed.

Lemma create_outcome (repo : Repository.t) (data : obj) (config : option obj)
    (w : World) :
  outcome (CustomShippingOptionService.create repo data config) w
  = outcome (Repository.save repo (create_entity repo data config)) w.
Proof.
  unfold CustomShippingOptionService.create. rewrite atomicPhase_outcome.
  unfold outcome, bind, create_entity, config_metadata, ret.
  by destruct (Repository.save repo _ w) as [[r | e] w'].
Qed.

Lemma rejected_Some {A} (r : Result A) (e : Thrown) :
  rejected r = Some e ↔ r = Throw e.
Proof. destruct r; simpl; split; congruence. Qed.

Lemma mem_findOne_outcome (q : Query.t) (w : World) :
  outcome (mem_findOne q) w
  = match next_fault w with
    | Some se => Throw (StorageFailure se)
    | None => Ok (load_relations (Query.relations q) w
                    <$> List.find (matches (Query.where_ q)) (rows w))
    end.
Proof.
  unfold outcome, mem_findOne. destruct (next_fault w) as [se |] eqn:Hf.
  - by rewrite (storage_call_fault _ _ _ Hf).
  - by rewrite (storage_call_ok _ _ Hf).
Qed.

Lemma mem_find_outcome (q : Query.t) (w : World) :
  outcome (mem_find q) w
  = match next_fault w with
    | Some se => Throw (StorageFailure se)
    | None => Ok (load_relations (Query.relations q) w
                    <$> paginate (Query.skip q) (Query.take q)
                          (List.filter (matches (Query.where_ q)) (rows w)))
    end.
Proof.
  unfold outcome, mem_find. destruct (next_fault w) as [se |] eqn:Hf.
  - by rewrite (storage_call_fault _ _ _ Hf).
  - by rewrite (storage_call_ok _ _ Hf).
Qed.

Lemma mem_save_outcome (d : Draft) (w : World) :
  outcome (mem_save d) w
  = match next_fault w with
    | Some se => Throw (StorageFailure se)
    | None =>
        if id_taken (next_id w) w
        then Throw (StorageFailure (ConstraintViolation "duplicate key: id"))
        else if negb (references_valid d w)
        then Throw (StorageFailure (ConstraintViolation "foreign key violation"))
        else Ok (insert_row d (next_id w))
    end.
Proof.
  unfold outcome, mem_save. destruct (next_fault w) as [se |] eqn:Hf.
  - by rewrite (storage_call_fault _ _ _ Hf).
  - rewrite (storage_call_ok _ _ Hf).
    change (next_id (tick w)) with (next_id w).
    change (id_taken (next_id w) (tick w)) with (id_taken (next_id w) w).
    change (references_valid d (tick w)) with (references_valid d w).
    destruct (id_taken (next_id w) w); [done |].
    by destruct (references_valid d w).
Qed.

(** C5, as stated, fails: a call to the sales-channel service rejects
    with an error that is neither NOT_FOUND nor a failure of the storage
    layer. *)
Lemma sales_channel_error_is_neither_not_found_nor_storage :
  ∃ e,
    rejection memoryRepository (ScRetrieve "sc_01") sample_world = Some e
    ∧ is_not_found e = false
    ∧ from_storage e = false.
Proof. exists (JsError "Method not implemented."). by vm_compute. Qed.

(** C5, amended.  In CustomShippingOptionService, whatever the repository
    does: [retrieve] rejects with NOT_FOUND exactly when its lookup
    resolves to no row, and otherwise rejects only with what the lookup
    rejected with; [list] and [create] reject only with what the
    repository's [find] and [save] rejected with, unchanged.  On the
    in-memory store every rejection of these three operations is NOT_FOUND
    (from [retrieve], when no record has the id) or a failure of the
    storage layer.  Every operation of SalesChannelService rejects with
    the plain error "Method not implemented.". *)
Theorem not_found_is_the_only_error_of_custom_shipping_options (w : World) :
  (∀ repo id config,
     outcome (CustomShippingOptionService.retrieve repo id config) w
     = match outcome (Repository.findOne repo (retrieve_query id config)) w with
       | Ok (Some found) => Ok found
       | Ok None =>
           Throw (MedusaError NOT_FOUND
                    (CustomShippingOptionService.not_found_message id))
       | Throw e => Throw e
       end)
  ∧ (∀ repo selector config,
       outcome (CustomShippingOptionService.list repo selector config) w
       = outcome (Repository.find repo (list_query selector config)) w)
  ∧ (∀ repo data config,
       outcome (CustomShippingOptionService.create repo data config) w
       = outcome (Repository.save repo (create_entity repo data config)) w)
  ∧ (∀ call e,
       rejection memoryRepository call w = Some e →
       match call with
       | CsoRetrieve id _ =>
           (e = MedusaError NOT_FOUND
                  (CustomShippingOptionService.not_found_message id)
            ∧ next_fault w = None
            ∧ ∀ r, r ∈ rows w → Models.id r ≠ id)
           ∨ (∃ se, next_fault w = Some se ∧ e = StorageFailure se)
       | CsoList _ _ =>
           ∃ se, next_fault w = Some se ∧ e = StorageFailure se
       | CsoCreate data _ =>
           (∃ se, next_fault w = Some se ∧ e = StorageFailure se)
           ∨ (next_fault w = None ∧ id_taken (next_id w) w = true
              ∧ e = StorageFailure (ConstraintViolation "duplicate key: id"))
           ∨ (next_fault w = None ∧ id_taken (next_id w) w = false
              ∧ data_references_valid data w = false
              ∧ e = StorageFailure (ConstraintViolation "foreign key violation"))
       | _ => e = JsError "Method not implemented."
       end).
Proof.
  split; [intros; apply retrieve_outcome |].
  split; [intros; apply list_outcome |].
  split; [intros; apply create_outcome |].
  intros call e H. destruct call; simpl in H;
    try (by injection H as <-); apply rejected_Some in H.
  - rewrite retrieve_outcome in H. simpl in H. rewrite mem_findOne_outcome in H.
    destruct (next_fault w) as [se |] eqn:Hf.
    + right. exists se. split; [done |]. by injection H as <-.
    + left. simpl in H.
      destruct (List.find _ (rows w)) as [r |] eqn:Hfind; simpl in H;
        [discriminate |].
      injection H as <-. split; [done |]. split; [done |].
      intros r Hin Hid.
      apply list_elem_of_In in Hin.
      apply (find_none _ _ Hfind) in Hin.
      rewrite matches_id, Hid, String.eqb_refl in Hin. discriminate.
  - rewrite list_outcome in H. simpl in H. rewrite mem_find_outcome in H.
    destruct (next_fault w) as [se |] eqn:Hf; [| discriminate].
    exists se. split; [done |]. by injection H as <-.
  - destruct (next_fault w) as [se |] eqn:Hf.
    + rewrite create_outcome in H. simpl in H.
      rewrite mem_save_outcome, Hf in H.
      left. exists se. split; [done |]. by injection H as <-.
    + unfold outcome in H. rewrite (create_memory_eq _ _ _ Hf) in H. right.
      destruct (id_taken (next_id w) w).
      * left. by injection H as <-.
      * right. destruct (data_references_valid data w); [discriminate |].
        by injection H as <-.
Qed.

Lemma not_found_is_the_only_error_of_custom_shipping_options_witness :
  rejection memoryRepository (CsoRetrieve "cso_9" None) sample_world
  = Some (MedusaError NOT_FOUND
            "Custom shipping option with id: cso_9 was not found.")
  ∧ ((MedusaError NOT_FOUND "Custom shipping option with id: cso_9 was not found."
      = MedusaError NOT_FOUND
          (CustomShippingOptionService.not_found_message "cso_9")
      ∧ next_fault sample_world = None
      ∧ ∀ r, r ∈ rows sample_world → Models.id r ≠ "cso_9")
     ∨ (∃ se, next_fault sample_world = Some se
              ∧ MedusaError NOT_FOUND
                  "Custom shipping option with id: cso_9 was not found."
                = StorageFailure se)).
Proof.
  split; [by vm_compute |].
  apply (proj2 (proj2 (proj2
           (not_found_is_the_only_error_of_custom_shipping_options sample_world)))
           (CsoRetrieve "cso_9" None)).
  by vm_compute.
Defined.

(* ===================================================================== *)
(** * SalesChannelService: nothing is implemented                         *)
(* ===================================================================== *)

(** C6. [update(id, data)] and [delete(id)] of SalesChannelService reject
    for every input (and leave the world as it was). *)
Theorem update_and_delete_always_throw :
  (∀ id data w,
     SalesChannelService.update id data w
     = (Throw (JsError "Method not implemented."), w))
  ∧ (∀ id w,
       SalesChannelService.delete id w
       = (Throw (JsError "Method not implemented."), w)).
Proof. split; reflexivity. Qed.

(** C10. Every public operation of SalesChannelService (retrieve,
    listAndCount, create, update, delete) rejects for every input, also
    when listAndCount is given no selector and no config and so runs with
    its declared default take of 10; hence none of them ever resolves to
    a record, a page or a created record. *)
Theorem every_sales_channel_operation_throws (w : World) :
  (∀ id, outcome (SalesChannelService.retrieve id) w
         = Throw (JsError "Method not implemented."))
  ∧ (∀ selector config,
       outcome (SalesChannelService.listAndCount selector config) w
       = Throw (JsError "Method not implemented."))
  ∧ (∀ data, outcome (SalesChannelService.create data) w
             = Throw (JsError "Method not implemented."))
  ∧ (∀ id data, outcome (SalesChannelService.update id data) w
                = Throw (JsError "Method not implemented."))
  ∧ (∀ id, outcome (SalesChannelService.delete id) w
           = Throw (JsError "Method not implemented."))
  ∧ FindConfig.take SalesChannelService.listAndCount_default_config = Some 10
  ∧ (∀ id found, outcome (SalesChannelService.retrieve id) w ≠ Ok found)
  ∧ (∀ selector config page,
       outcome (SalesChannelService.listAndCount selector config) w ≠ Ok page)
  ∧ (∀ data made, outcome (SalesChannelService.create data) w ≠ Ok made).
Proof. repeat split; intros; discriminate. Qed.

(* ===================================================================== *)
(** * The transaction wrapper                                             *)
(* ===================================================================== *)

Lemma atomicPhase_rejected_stored {A} (work : M A) (w : World) (e : Thrown) :
  rejected (outcome (atomicPhase_ work) w) = Some e →
  stored (world_after (atomicPhase_ work) w) = stored w.
Proof.
  intros H. apply rejected_Some in H.
  rewrite atomicPhase_outcome in H. by rewrite atomicPhase_stored, H.
Qed.

Lemma atomicPhase_resolved_world {A} (work : M A) (w : World) (a : A) :
  outcome (atomicPhase_ work) w = Ok a →
  world_after (atomicPhase_ work) w = world_after work w.
Proof.
  unfold outcome, world_after, atomicPhase_.
  by destruct (work w) as [[a' | e] w'].
Qed.

(** C7. A unit of work run through the transaction wrapper is atomic:
    the wrapper resolves or rejects as the work does; when the work
    throws, the stored tables are what they were before it started,
    whatever it had written; when it resolves, they are what the work
    left.  So every operation of the two services that rejects leaves the
    stored tables unchanged, with any repository, and a [create] that
    resolves leaves the world its [save] produced. *)
Theorem atomic_unit_of_work :
  (∀ (A : Type) (work : M A) (w : World),
     outcome (atomicPhase_ work) w = outcome work w
     ∧ stored (world_after (atomicPhase_ work) w)
       = match outcome work w with
         | Ok _ => stored (world_after work w)
         | Throw _ => stored w
         end)
  ∧ (∀ repo call w e,
       rejection repo call w = Some e →
       stored (after_call repo call w) = stored w)
  ∧ (∀ repo data config w r,
       outcome (CustomShippingOptionService.create repo data config) w = Ok r →
       world_after (CustomShippingOptionService.create repo data config) w
       = world_after (Repository.save repo (create_entity repo data config)) w).
Proof.
  split; [| split].
  - intros A work w. split; [apply atomicPhase_outcome | apply atomicPhase_stored].
  - intros repo call w e H. destruct call; simpl in *; try done.
    + by apply (atomicPhase_rejected_stored _ _ e).
    + by apply (atomicPhase_rejected_stored _ _ e).
    + by apply (atomicPhase_rejected_stored _ _ e).
  - intros repo data config w r H.
    unfold CustomShippingOptionService.create in *.
    rewrite (atomicPhase_resolved_world _ _ _ H).
    unfold world_after, bind, create_entity, config_metadata, ret.
    rewrite atomicPhase_outcome in H. revert H. unfold outcome, bind, ret.
    by destruct (Repository.save repo _ w) as [[r' | e] w'].
Qed.

Lemma atomic_unit_of_work_witness :
  rejection tornRepository (CsoCreate sample_data None) sample_world
  = Some (StorageFailure (ConnectionError "connection lost"))
  ∧ length (rows (world_after
                    (Repository.save tornRepository
                       (create_entity tornRepository sample_data None))
                    sample_world)) = 4%nat
  ∧ stored (after_call tornRepository (CsoCreate sample_data None) sample_world)
    = stored sample_world.
Proof.
  split; [by vm_compute |]. split; [by vm_compute |].
  apply (proj1 (proj2 atomic_unit_of_work) tornRepository
           (CsoCreate sample_data None) sample_world
           (StorageFailure (ConnectionError "connection lost"))).
  by vm_compute.
Defined.

(* ===================================================================== *)
(** * The mutation hooks                                                  *)
(* ===================================================================== *)

Import SalesChannelHooks.

Lemma mutate_request {V} (call : V → ClientCall) (keys : list QueryKey)
    (given : option obj) (variables : V) (b : Browser) :
  let m := useMutation (λ v, request (call v)) (buildOptions keys given) in
  fst (mutate m variables b) = server b (call variables)
  ∧ requests (snd (mutate m variables b)) = requests b ++ [call variables]
  ∧ invalidated (snd (mutate m variables b))
    = match server b (call variables) with
      | Resolved _ => invalidated b ++ keys
      | Rejected _ => invalidated b
      end.
Proof.
  simpl. unfold mutate, request; simpl.
  destruct (server b (call variables)) as [body | err]; simpl;
    [| by repeat split].
  split; [done |].
  set (b0 := {| server := server b; requests := requests b ++ [call variables];
                invalidated := invalidated b |}).
  assert (Hfold : ∀ ks acc,
    requests (foldl (λ acc key, invalidateQueries key acc) acc ks) = requests acc
    ∧ invalidated (foldl (λ acc key, invalidateQueries key acc) acc ks)
      = invalidated acc ++ ks).
  { induction ks as [| k ks IH]; intros acc; simpl.
    - by rewrite app_nil_r.
    - destruct (IH (invalidateQueries k acc)) as [Hr Hi].
      rewrite Hr, Hi. simpl. by rewrite <- app_assoc. }
  destruct (Hfold keys b0) as [Hr Hi]. by rewrite Hr, Hi.
Qed.

(** C8. One invocation of the mutation of each sales-channel hook issues
    exactly one call through the client (the create, update or delete
    call of the hook); when that call resolves, the hook's query keys are
    invalidated (the list key for create; the lists key and the detail
    key of the id for update and delete); when it is rejected, no key is
    invalidated. *)
Theorem mutation_hooks_one_call_then_invalidate (b : Browser) :
  (∀ options payload,
     let call := SalesChannelsCreate payload in
     let after := snd (mutate (useAdminCreateSalesChannel options) payload b) in
     requests after = requests b ++ [call]
     ∧ invalidated after
       = match server b call with
         | Resolved _ => invalidated b ++ [KeyList None]
         | Rejected _ => invalidated b
         end)
  ∧ (∀ id options payload,
       let call := SalesChannelsUpdate id payload in
       let after := snd (mutate (useAdminUpdateSalesChannel id options) payload b) in
       requests after = requests b ++ [call]
       ∧ invalidated after
         = match server b call with
           | Resolved _ => invalidated b ++ [KeyLists; KeyDetail id]
           | Rejected _ => invalidated b
           end)
  ∧ (∀ id options,
       let call := SalesChannelsDelete id in
       let after := snd (mutate (useAdminDeleteSalesChannel id options) tt b) in
       requests after = requests b ++ [call]
       ∧ invalidated after
         = match server b call with
           | Resolved _ => invalidated b ++ [KeyLists; KeyDetail id]
           | Rejected _ => invalidated b
           end).
Proof.
  split; [| split].
  - intros options payload.
    apply (mutate_request SalesChannelsCreate [KeyList None] options payload b).
  - intros id options payload.
    apply (mutate_request (SalesChannelsUpdate id) [KeyLists; KeyDetail id]
             options payload b).
  - intros id options.
    apply (mutate_request (λ _ : unit, SalesChannelsDelete id)
             [KeyLists; KeyDetail id] options tt b).
Qed.

(* ===================================================================== *)
(** * What a call leaves behind                                           *)
(* ===================================================================== *)

Lemma retrieve_memory_world (id : string) (config : option FindConfig.t)
    (w : World) :
  let w' := world_after
              (CustomShippingOptionService.retrieve memoryRepository id config) w in
  rows w' = rows w ∧ carts w' = carts w
  ∧ shipping_options w' = shipping_options w
  ∧ faults w' = tl (faults w) ∧ id_source w' = id_source w.
Proof.
  destruct w as [rs cs sos fs ids].
  unfold world_after, CustomShippingOptionService.retrieve, atomicPhase_, bind.
  simpl. unfold mem_findOne, storage_call. simpl.
  destruct fs as [| [e |] rest]; simpl; try done;
    by destruct (List.find _ rs).
Qed.

Lemma list_memory_world (selector : obj) (config : option FindConfig.t)
    (w : World) :
  let w' := world_after
              (CustomShippingOptionService.list memoryRepository selector config)
              w in
  rows w' = rows w ∧ carts w' = carts w
  ∧ shipping_options w' = shipping_options w
  ∧ faults w' = tl (faults w) ∧ id_source w' = id_source w.
Proof.
  destruct w as [rs cs sos fs ids].
  unfold world_after, CustomShippingOptionService.list, atomicPhase_.
  simpl. unfold mem_find, storage_call. simpl.
  by destruct fs as [| [e |] rest].
Qed.

Lemma create_memory_world (data : obj) (config : option obj) (w : World) :
  let w' := world_after
              (CustomShippingOptionService.create memoryRepository data config) w in
  carts w' = carts w ∧ shipping_options w' = shipping_options w
  ∧ faults w' = tl (faults w)
  ∧ (rows w' = rows w
     ∨ (next_fault w = None ∧ id_taken (next_id w) w = false
        ∧ rows w' = rows w ++ [expected_row data config (next_id w)])).
Proof.
  destruct (next_fault w) as [se |] eqn:Hf.
  - unfold world_after, CustomShippingOptionService.create, atomicPhase_, bind,
      memoryRepository.
    cbn [Repository.create Repository.save]. unfold mem_save.
    rewrite (storage_call_fault _ _ _ Hf). simpl. by repeat split; try left.
  - unfold world_after. rewrite (create_memory_eq _ _ _ Hf).
    destruct (id_taken (next_id w) w) eqn:Hfresh; simpl;
      [by repeat split; try left |].
    destruct (data_references_valid data w); simpl;
      [| by repeat split; try left].
    repeat split; try done. by right.
Qed.

Lemma after_call_memory (call : ServiceCall) (w : World) :
  let w' := after_call memoryRepository call w in
  carts w' = carts w ∧ shipping_options w' = shipping_options w
  ∧ faults w' = (if uses_storage call then tl (faults w) else faults w)
  ∧ (rows w' = rows w
     ∨ (is_create call = true ∧ next_fault w = None
        ∧ ∃ r, rows w' = rows w ++ [r]
               ∧ ∀ r0, r0 ∈ rows w → Models.id r0 ≠ Models.id r)).
Proof.
  destruct call as [id cfg | sel cfg | data cfg | | | | |]; simpl;
    try (by repeat split; try left).
  - destruct (retrieve_memory_world id cfg w) as (Hr & Hc & Hs & Hf & _).
    by repeat split; try left.
  - destruct (list_memory_world sel cfg w) as (Hr & Hc & Hs & Hf & _).
    by repeat split; try left.
  - destruct (create_memory_world data cfg w)
      as (Hc & Hs & Hf & [Hr | (Hok & Hfresh & Hr)]).
    + by repeat split; try left.
    + repeat split; try done. right. repeat split; try done.
      exists (expected_row data cfg (next_id w)). split; [done |].
      by apply id_taken_false.
Qed.

Lemma run_calls_cons (repo : Repository.t) (call : ServiceCall)
    (calls : list ServiceCall) (w : World) :
  run_calls repo (call :: calls) w = run_calls repo calls (after_call repo call w).
Proof. done. Qed.

Lemma drop_tl {A} (n : nat) (l : list A) : drop n (tl l) = drop (S n) l.
Proof. by destruct l; [destruct n |]. Qed.

(** X1. The stored records are append-only under the two services:
    whatever calls are made, in whatever order and whether they resolve
    or reject, the records stored before are still there, unchanged and
    in the same order, followed by at most one new record per [create]
    call; the related tables are never written. *)
Theorem stored_records_are_append_only (calls : list ServiceCall) (w : World) :
  ∃ added,
    rows (run_calls memoryRepository calls w) = rows w ++ added
    ∧ (length added ≤ length (List.filter is_create calls))%nat
    ∧ carts (run_calls memoryRepository calls w) = carts w
    ∧ shipping_options (run_calls memoryRepository calls w) = shipping_options w.
Proof.
  revert w. induction calls as [| call calls IH]; intros w.
  - exists []. simpl. by rewrite app_nil_r.
  - rewrite run_calls_cons.
    destruct (IH (after_call memoryRepository call w))
      as (added & Hrows & Hlen & Hc & Hs).
    destruct (after_call_memory call w)
      as (Hc1 & Hs1 & _ & [Hsame | (Hcreate & _ & r & Hr & _)]).
    + exists added. rewrite Hrows, Hsame, Hc, Hs. repeat split; try done.
      simpl. destruct (is_create call); simpl; lia.
    + exists (r :: added). rewrite Hrows, Hr, Hc, Hs, <- app_assoc.
      repeat split; try done. simpl. rewrite Hcreate. simpl. lia.
Qed.

(** X2. Uniqueness of ids is an invariant of the two services: if no two
    stored records share an id, no sequence of calls makes two stored
    records share one. *)
Theorem calls_keep_ids_unique (calls : list ServiceCall) (w : World) :
  unique_ids w → unique_ids (run_calls memoryRepository calls w).
Proof.
  revert w. induction calls as [| call calls IH]; intros w Hnd; [done |].
  rewrite run_calls_cons. apply IH.
  destruct (after_call_memory call w)
    as (_ & _ & _ & [Hsame | (_ & _ & r & Hr & Hfresh)]).
  - unfold unique_ids. by rewrite Hsame.
  - unfold unique_ids in *. rewrite Hr, fmap_app. simpl.
    apply NoDup_app. split; [done |]. split; [| apply NoDup_singleton].
    intros i Hi Hin. apply list_elem_of_singleton in Hin.
    apply list_elem_of_fmap in Hi as (r0 & Hi & Hr0).
    apply (Hfresh r0 Hr0). by rewrite <- Hi, Hin.
Qed.

Lemma calls_keep_ids_unique_witness :
  unique_ids sample_world
  ∧ unique_ids
      (run_calls memoryRepository
         [CsoCreate sample_data None; ScCreate sample_data;
          CsoRetrieve "cso_4" None; CsoCreate sample_data None]
         sample_world).
Proof.
  split; [apply (bool_decide_unpack _); by vm_compute |].
  apply (calls_keep_ids_unique
           [CsoCreate sample_data None; ScCreate sample_data;
            CsoRetrieve "cso_4" None; CsoCreate sample_data None]
           sample_world).
  apply (bool_decide_unpack _). by vm_compute.
Defined.

(** X3. Every call of CustomShippingOptionService makes exactly one round
    trip to the store, whether it resolves or rejects (nothing is
    retried), and no call of SalesChannelService makes any: a sequence of
    calls uses up as many entries of the store's schedule as it has
    custom-shipping-option calls. *)
Theorem one_round_trip_per_call (calls : list ServiceCall) (w : World) :
  faults (run_calls memoryRepository calls w)
  = drop (length (List.filter uses_storage calls)) (faults w).
Proof.
  revert w. induction calls as [| call calls IH]; intros w; [done |].
  rewrite run_calls_cons, IH.
  destruct (after_call_memory call w) as (_ & _ & Hf & _). rewrite Hf. simpl.
  destruct (uses_storage call); simpl; [apply drop_tl | done].
Qed.

(** X4. A failure of the store is never swallowed: when the store is
    about to fail, each of retrieve, list and create of
    CustomShippingOptionService rejects with exactly that failure,
    whatever its arguments, and leaves the stored tables as they were;
    the operations of SalesChannelService reject with their own error
    without reaching the store, so the failure is still to come. *)
Theorem storage_failure_surfaces_unchanged
    (call : ServiceCall) (w : World) (se : StorageError) :
  next_fault w = Some se →
  rejection memoryRepository call w
  = Some (if uses_storage call then StorageFailure se
          else JsError "Method not implemented.")
  ∧ stored (after_call memoryRepository call w) = stored w
  ∧ (uses_storage call = false →
     next_fault (after_call memoryRepository call w) = Some se).
Proof.
  intros Hf.
  assert (Hstored : stored (after_call memoryRepository call w) = stored w).
  { destruct (after_call_memory call w)
      as (Hc & Hs & _ & [Hsame | (_ & Hok & _)]); [| congruence].
    unfold stored. by rewrite Hsame, Hc, Hs. }
  split; [| split; [done |]].
  - destruct call as [id cfg | sel cfg | data cfg | | | | |]; simpl; try done.
    + rewrite retrieve_outcome. simpl. by rewrite mem_findOne_outcome, Hf.
    + rewrite list_outcome. simpl. by rewrite mem_find_outcome, Hf.
    + rewrite create_outcome. simpl. by rewrite mem_save_outcome, Hf.
  - by destruct call.
Qed.

Lemma storage_failure_surfaces_unchanged_witness :
  next_fault faulty_world = Some (ConnectionError "timeout")
  ∧ (rejection memoryRepository (CsoCreate sample_data None) faulty_world
     = Some (StorageFailure (ConnectionError "timeout"))
     ∧ stored (after_call memoryRepository (CsoCreate sample_data None)
                 faulty_world)
       = stored faulty_world)
  ∧ (rejection memoryRepository (ScRetrieve "sc_01") faulty_world
     = Some (JsError "Method not implemented.")
     ∧ stored (after_call memoryRepository (ScRetrieve "sc_01") faulty_world)
       = stored faulty_world
     ∧ next_fault (after_call memoryRepository (ScRetrieve "sc_01") faulty_world)
       = Some (ConnectionError "timeout")).
Proof.
  split; [reflexivity |]. split.
  - destruct (storage_failure_surfaces_unchanged (CsoCreate sample_data None)
                faulty_world (ConnectionError "timeout") eq_refl)
      as (Hrej & Hstored & _).
    exact (conj Hrej Hstored).
  - destruct (storage_failure_surfaces_unchanged (ScRetrieve "sc_01")
                faulty_world (ConnectionError "timeout") eq_refl)
      as (Hrej & Hstored & Hnext).
    exact (conj Hrej (conj Hstored (Hnext eq_refl))).
Defined.

(* ===================================================================== *)
(** * How the operations compose                                          *)
(* ===================================================================== *)

Lemma filter_by_id (i : string) (rs : list CustomShippingOption) :
  NoDup (Models.id <$> rs) →
  List.filter (matches {[ "id" := VStr i ]}) rs
  = match List.find (matches {[ "id" := VStr i ]}) rs with
    | Some r => [r]
    | None => []
    end.
Proof.
  induction rs as [| r0 rs IH]; intros Hnd; simpl; [done |].
  rewrite fmap_cons in Hnd. apply NoDup_cons in Hnd as [Hfresh Hnd].
  destruct (matches {[ "id" := VStr i ]} r0) eqn:Hm; [| by apply IH].
  f_equal. rewrite (IH Hnd).
  rewrite matches_id in Hm. apply String.eqb_eq in Hm.
  rewrite find_by_id_none; [done |].
  intros r Hr Hid. apply Hfresh. rewrite <- Hm, <- Hid.
  by apply list_elem_of_fmap_2.
Qed.

Lemma find_by_id_other (i : string) (rs : list CustomShippingOption)
    (r : CustomShippingOption) :
  Models.id r ≠ i →
  List.find (matches {[ "id" := VStr i ]}) (rs ++ [r])
  = List.find (matches {[ "id" := VStr i ]}) rs.
Proof.
  intros Hne. induction rs as [| r0 rs IH]; simpl.
  - rewrite matches_id.
    destruct (String.eqb_spec i (Models.id r)) as [Heq | _]; [by subst | done].
  - by destruct (matches _ r0).
Qed.

Lemma load_relations_default (w : World) (r : CustomShippingOption) :
  load_relations (Some []) w r = load_relations None w r.
Proof. done. Qed.

(** X5. The cap of fifty holds only when [list] is called without a
    config.  On a store that answers, [list(selector)] returns exactly
    the first fifty matching records (all of them when there are fewer);
    with a config that has no [take] (the empty object, or one that only
    names relations or a skip) it returns every matching record after the
    skipped ones, however many there are.  So with more than fifty
    matching records, [list(selector)] returns fifty records, the first
    fifty of the longer list that [list(selector, {})] returns. *)
Theorem list_is_capped_only_without_config (selector : obj) (w : World) :
  next_fault w = None →
  outcome (CustomShippingOptionService.list memoryRepository selector None) w
  = Ok (load_relations None w <$> take 50 (matching selector w))
  ∧ (∀ cfg,
       FindConfig.take cfg = None →
       outcome (CustomShippingOptionService.list memoryRepository selector
                  (Some cfg)) w
       = Ok (load_relations (FindConfig.relations cfg) w
               <$> drop (default 0%nat (FindConfig.skip cfg))
                     (matching selector w)))
  ∧ ((50 < length (matching selector w))%nat →
     ∃ capped everything,
       outcome (CustomShippingOptionService.list memoryRepository selector None) w
       = Ok capped
       ∧ outcome (CustomShippingOptionService.list memoryRepository selector
                    (Some FindConfig.empty)) w
         = Ok everything
       ∧ length capped = 50%nat
       ∧ length everything = length (matching selector w)
       ∧ capped = take 50 everything).
Proof.
  intros Hok. unfold outcome. split; [| split].
  - by rewrite (list_memory _ _ _ Hok).
  - intros cfg Htake. rewrite (list_memory _ _ _ Hok). simpl.
    unfold paginate. by rewrite Htake.
  - intros Hmany. rewrite !(list_memory _ _ _ Hok). simpl.
    eexists _, _. split; [done |]. split; [done |].
    rewrite !drop_0, !length_fmap, length_take, fmap_take.
    unfold matching in *. split; [lia |]. split; [done |]. done.
Qed.

Lemma list_is_capped_only_without_config_witness :
  next_fault crowded_world = None
  ∧ length (matching {[ "shipping_option_id" := VStr "so_1" ]} crowded_world)
    = 60%nat
  ∧ (∃ capped everything,
       outcome (CustomShippingOptionService.list memoryRepository
                  {[ "shipping_option_id" := VStr "so_1" ]} None) crowded_world
       = Ok capped
       ∧ outcome (CustomShippingOptionService.list memoryRepository
                    {[ "shipping_option_id" := VStr "so_1" ]}
                    (Some FindConfig.empty)) crowded_world
         = Ok everything
       ∧ length capped = 50%nat
       ∧ length everything = 60%nat
       ∧ capped = take 50 everything)
  ∧ outcome (CustomShippingOptionService.list memoryRepository
               {[ "shipping_option_id" := VStr "so_1" ]}
               (Some {| FindConfig.skip := Some 58%nat; FindConfig.take := None;
                        FindConfig.relations := None |})) crowded_world
    = Ok [sample_row "cso_62" "cart_1" "so_1" 62;
          sample_row "cso_63" "cart_1" "so_1" 63].
Proof.
  assert (Hcount :
    length (matching {[ "shipping_option_id" := VStr "so_1" ]} crowded_world)
    = 60%nat) by (by vm_compute).
  destruct (list_is_capped_only_without_config
              {[ "shipping_option_id" := VStr "so_1" ]} crowded_world eq_refl)
    as (_ & Hconfig & Hmany).
  split; [reflexivity |]. split; [exact Hcount |]. split.
  - destruct Hmany as (capped & everything & H1 & H2 & H3 & H4 & H5);
      [rewrite Hcount; lia |].
    exists capped, everything. rewrite Hcount in H4.
    exact (conj H1 (conj H2 (conj H3 (conj H4 H5)))).
  - rewrite (Hconfig {| FindConfig.skip := Some 58%nat; FindConfig.take := None;
                        FindConfig.relations := None |} eq_refl).
    by vm_compute.
Defined.

(** X6. [list] and [retrieve] agree on one id.  On a store that answers
    and holds unique ids, [list({ id })] without a config returns exactly
    the record that [retrieve(id)] returns, and the empty list when
    [retrieve(id)] rejects with NOT_FOUND: a missing id is an error for
    [retrieve] and an empty result for [list]. *)
Theorem list_by_id_agrees_with_retrieve (i : string) (w : World) :
  next_fault w = None →
  unique_ids w →
  outcome (CustomShippingOptionService.list memoryRepository
             {[ "id" := VStr i ]} None) w
  = match outcome (CustomShippingOptionService.retrieve memoryRepository i None) w
    with
    | Ok found => Ok [found]
    | Throw _ => Ok []
    end.
Proof.
  intros Hok Hnd. unfold outcome.
  rewrite (list_memory _ _ _ Hok), (retrieve_memory _ _ _ Hok). simpl.
  rewrite (filter_by_id i (rows w) Hnd).
  by destruct (List.find _ (rows w)).
Qed.

Lemma list_by_id_agrees_with_retrieve_witness :
  next_fault sample_world = None
  ∧ unique_ids sample_world
  ∧ outcome (CustomShippingOptionService.list memoryRepository
               {[ "id" := VStr "cso_3" ]} None) sample_world
    = match outcome (CustomShippingOptionService.retrieve memoryRepository
                       "cso_3" None) sample_world
      with
      | Ok found => Ok [found]
      | Throw _ => Ok []
      end.
Proof.
  split; [reflexivity |].
  assert (Hnd : unique_ids sample_world)
    by (apply (bool_decide_unpack _); by vm_compute).
  split; [exact Hnd |].
  apply (list_by_id_agrees_with_retrieve "cso_3" sample_world eq_refl Hnd).
Defined.

(** X7. [create] disturbs no other record.  After a [create] that
    resolved, [retrieve] of any id other than the new record's gives, on
    a store that answers, exactly what it gave before the [create]: the
    same record, or the same NOT_FOUND error. *)
Theorem create_leaves_other_ids_as_they_were
    (data : obj) (config : option obj) (w w' : World) (r : CustomShippingOption)
    (i : string) (rconfig : option FindConfig.t) :
  CustomShippingOptionService.create memoryRepository data config w = (Ok r, w') →
  next_fault w' = None →
  i ≠ Models.id r →
  outcome (CustomShippingOptionService.retrieve memoryRepository i rconfig) w'
  = outcome (CustomShippingOptionService.retrieve memoryRepository i rconfig) w.
Proof.
  intros Hcreate Hok' Hne.
  apply create_memory_inv in Hcreate as (Hok & _ & _ & Hrows & Hc & Hs).
  unfold outcome.
  rewrite (retrieve_memory _ _ _ Hok'), (retrieve_memory _ _ _ Hok), Hrows.
  rewrite find_by_id_other by done.
  destruct (List.find _ (rows w)) as [r0 |]; simpl; [| done].
  by rewrite (load_relations_same_tables _ w w' r0 Hc Hs).
Qed.

Lemma create_leaves_other_ids_as_they_were_witness :
  outcome (CustomShippingOptionService.retrieve memoryRepository "cso_2" None)
    (world_after
       (CustomShippingOptionService.create memoryRepository sample_data None)
       sample_world)
  = outcome (CustomShippingOptionService.retrieve memoryRepository "cso_2" None)
      sample_world.
Proof.
  apply (create_leaves_other_ids_as_they_were sample_data None sample_world
           (world_after
              (CustomShippingOptionService.create memoryRepository sample_data None)
              sample_world)
           (expected_row sample_data None "cso_4") "cso_2" None).
  - by vm_compute.
  - by vm_compute.
  - discriminate.
Defined.

(** X8. [create] then [list].  After a [create] that resolved, a [list]
    without skip and without take returns, on a store that answers, what
    it returned before the [create], followed by the new record when the
    new record matches the selector, and by nothing when it does not. *)
Theorem create_then_list_appends_the_new_record
    (data : obj) (config : option obj) (w w' : World) (r : CustomShippingOption)
    (selector : obj) (cfg : FindConfig.t) :
  CustomShippingOptionService.create memoryRepository data config w = (Ok r, w') →
  next_fault w' = None →
  default 0%nat (FindConfig.skip cfg) = 0%nat →
  FindConfig.take cfg = None →
  ∃ before,
    outcome (CustomShippingOptionService.list memoryRepository selector (Some cfg)) w
    = Ok before
    ∧ outcome (CustomShippingOptionService.list memoryRepository selector
                 (Some cfg)) w'
      = Ok (before
            ++ if matches selector r
               then [load_relations (FindConfig.relations cfg) w' r]
               else []).
Proof.
  intros Hcreate Hok' Hskip Htake.
  apply create_memory_inv in Hcreate as (Hok & _ & _ & Hrows & Hc & Hs).
  unfold outcome.
  rewrite (list_memory _ _ _ Hok'), (list_memory _ _ _ Hok). simpl.
  eexists. split; [done |]. f_equal.
  unfold paginate. rewrite Hskip, Htake, Hrows. simpl.
  rewrite List.filter_app, !drop_0, fmap_app. f_equal.
  - apply list_fmap_ext. intros _ r0 _.
    by apply load_relations_same_tables.
  - simpl. by destruct (matches selector r).
Qed.

Lemma create_then_list_appends_the_new_record_witness :
  ∃ before,
    outcome (CustomShippingOptionService.list memoryRepository
               {[ "shipping_option_id" := VStr "so_2" ]}
               (Some FindConfig.empty)) sample_world
    = Ok before
    ∧ outcome (CustomShippingOptionService.list memoryRepository
                 {[ "shipping_option_id" := VStr "so_2" ]}
                 (Some FindConfig.empty))
        (world_after
           (CustomShippingOptionService.create memoryRepository sample_data None)
           sample_world)
      = Ok (before
            ++ if matches {[ "shipping_option_id" := VStr "so_2" ]}
                    (expected_row sample_data None "cso_4")
               then [load_relations (FindConfig.relations FindConfig.empty)
                       (world_after
                          (CustomShippingOptionService.create memoryRepository
                             sample_data None) sample_world)
                       (expected_row sample_data None "cso_4")]
               else []).
Proof.
  apply (create_then_list_appends_the_new_record sample_data None sample_world
           (world_after
              (CustomShippingOptionService.create memoryRepository sample_data None)
              sample_world)
           (expected_row sample_data None "cso_4")
           {[ "shipping_option_id" := VStr "so_2" ]} FindConfig.empty).
  - by vm_compute.
  - by vm_compute.
  - reflexivity.
  - reflexivity.
Defined.

(* ===================================================================== *)
(** * Sequences of mutations                                              *)
(* ===================================================================== *)

Lemma invoke_step (i : Invocation) (b : Browser) :
  server (snd (invoke i b)) = server b
  ∧ requests (snd (invoke i b)) = requests b ++ [call_of i]
  ∧ invalidated (snd (invoke i b))
    = invalidated b ++ (if resolves b i then keys_of i else []).
Proof.
  unfold resolves.
  destruct i as [o p | id o p | id o]; unfold invoke, mutate; simpl;
    unfold salesChannels.create, salesChannels.update, salesChannels.delete,
      request; simpl.
  - destruct (server b (SalesChannelsCreate p)); simpl;
      by rewrite ?app_nil_r.
  - destruct (server b (SalesChannelsUpdate id p)); simpl;
      by rewrite ?app_nil_r, <- ?app_assoc.
  - destruct (server b (SalesChannelsDelete id)); simpl;
      by rewrite ?app_nil_r, <- ?app_assoc.
Qed.

Lemma invoke_all_cons (i : Invocation) (invs : list Invocation) (b : Browser) :
  invoke_all (i :: invs) b = invoke_all invs (snd (invoke i b)).
Proof. done. Qed.

Lemma resolves_same_server (b b' : Browser) (i : Invocation) :
  server b' = server b → resolves b' i = resolves b i.
Proof. intros H. unfold resolves. by rewrite H. Qed.

(** X9. Mutations compose: after any sequence of invocations of the
    three hooks' mutations, the client has issued exactly one call per
    invocation, in the order of the invocations and whether or not the
    calls resolved, and the keys marked stale are, in order, those of the
    invocations whose call resolved; the hooks never change the remote
    API they talk to. *)
Theorem mutations_issue_one_call_each_in_order
    (invs : list Invocation) (b : Browser) :
  server (invoke_all invs b) = server b
  ∧ requests (invoke_all invs b) = requests b ++ (call_of <$> invs)
  ∧ invalidated (invoke_all invs b)
    = invalidated b
      ++ concat ((λ i, if resolves b i then keys_of i else []) <$> invs).
Proof.
  revert b. induction invs as [| i invs IH]; intros b.
  - simpl. by rewrite !app_nil_r.
  - rewrite invoke_all_cons.
    destruct (IH (snd (invoke i b))) as (Hs & Hr & Hi).
    destruct (invoke_step i b) as (Hs1 & Hr1 & Hi1).
    rewrite Hs, Hr, Hi, Hs1, Hr1, Hi1. simpl.
    rewrite <- !app_assoc. repeat split; try done.
    do 3 f_equal. apply list_fmap_ext. intros _ j _.
    by rewrite (resolves_same_server b _ j Hs1).
Qed.

(** X10. The detail query of a sales channel is marked stale only by a
    mutation of that very sales channel: after any sequence of
    invocations, a detail key that was not stale before is the key of the
    id of an update or delete invocation of the sequence whose call
    resolved.  Creating a sales channel marks no detail key stale, and
    updating or deleting one never touches another's. *)
Theorem detail_key_is_invalidated_only_by_its_own_mutation
    (invs : list Invocation) (b : Browser) (id : string) :
  KeyDetail id ∈ invalidated (invoke_all invs b) →
  KeyDetail id ∈ invalidated b
  ∨ ∃ i, i ∈ invs ∧ target_of i = Some id ∧ resolves b i = true.
Proof.
  revert b. induction invs as [| i invs IH]; intros b Hin; [by left |].
  rewrite invoke_all_cons in Hin. apply IH in Hin.
  destruct (invoke_step i b) as (Hs1 & _ & Hi1).
  destruct Hin as [Hin | (j & Hj & Ht & Hres)].
  - rewrite Hi1 in Hin. apply elem_of_app in Hin as [Hin | Hin]; [by left |].
    right. exists i. split; [left |].
    destruct (resolves b i); [| by apply elem_of_nil in Hin].
    destruct i as [o p | id' o p | id' o]; simpl in *.
    + apply list_elem_of_singleton in Hin. discriminate.
    + apply elem_of_cons in Hin as [Hin | Hin]; [discriminate |].
      apply list_elem_of_singleton in Hin. by injection Hin as ->.
    + apply elem_of_cons in Hin as [Hin | Hin]; [discriminate |].
      apply list_elem_of_singleton in Hin. by injection Hin as ->.
  - right. exists j. split; [by right |]. split; [done |].
    by rewrite <- (resolves_same_server b _ j Hs1).
Qed.

Lemma detail_key_is_invalidated_only_by_its_own_mutation_witness :
  KeyDetail "sc_1"
    ∈ invalidated
        (invoke_all [InvokeCreate None ∅; InvokeDelete "sc_2" None;
                     InvokeUpdate "sc_1" None ∅] sample_browser)
  ∧ (KeyDetail "sc_1" ∈ invalidated sample_browser
     ∨ ∃ i, i ∈ [InvokeCreate None ∅; InvokeDelete "sc_2" None;
                 InvokeUpdate "sc_1" None ∅]
            ∧ target_of i = Some "sc_1" ∧ resolves sample_browser i = true).
Proof.
  assert (Hin : KeyDetail "sc_1"
    ∈ invalidated
        (invoke_all [InvokeCreate None ∅; InvokeDelete "sc_2" None;
                     InvokeUpdate "sc_1" None ∅] sample_browser)).
  { vm_compute. apply list_elem_of_further, list_elem_of_further,
      list_elem_of_here. }
  split; [exact Hin |].
  exact (detail_key_is_invalidated_only_by_its_own_mutation _ _ _ Hin).
Defined.

(* ===================================================================== *)
(** * Referential validity                                                *)
(* ===================================================================== *)



